(** * Postal_Code_ETL: the nearby-postal-code searches of [PostalCodeLoader]

    A shallow embedding of [src/postalcode_loader.py].  The two public
    methods, [find_nearby_postal_codes_by_bounding] and
    [find_nearby_postal_codes_by_distance], are pure once the CSV snapshot
    has been read, so each becomes a function from the snapshot, the
    reference selectors and the radius to an [outcome].

    Numbers are Python floats, that is IEEE binary64: they are modelled by
    Rocq's primitive floats, whose arithmetic and comparisons are the same
    operations (a missing cell is NaN, as in pandas).  The two library
    functions the code calls and does not define, [math.cos] and geopy's
    [geodesic(...).kilometers], are parameters of the development.

    The steps before the loader follow: the cleaning, the splitting, the
    geocoding and the merge of [src/postalcode_transformation.py], and
    [process_string] of [src/postalcode_extraction.py].  Their texts are
    Python strings, modelled by the lists of their code points. *)

From Stdlib Require Import List String Bool Arith ZArith NArith Lia.
From Stdlib Require Import Sorted DecimalN.
From Stdlib Require Import Floats.
Import ListNotations.

Set Warnings "-inexact-float".
Set Implicit Arguments.

Local Open Scope float_scope.

(** ** Data model *)

(** One line of [<country>_postal_codes_and_coordinates.csv].  A coordinate
    cell that is empty in the file is read by pandas as NaN. *)
Record PostalCodeRecord : Set := mkRecord {
  PostalCode : string;
  City : string;
  Latitude : float;
  Longitude : float
}.

(** What a call prints and logs before a bare [return] (for a missing file,
    after the name of the file). *)
Inductive diagnostic : Set :=
| FileMissing
| NoReferenceProvided
| ReferenceNotFound.

Definition message (d : diagnostic) : string :=
  match d with
  | FileMissing => "does not exists. Get coordinates for postal codes"
  | NoReferenceProvided => "No reference place was provided"
  | ReferenceNotFound => "Reference place not found"
  end.

(** The exceptions the modelled statements can raise. *)
Inductive exn : Set :=
| KeyError (missing : list nat)
| ZeroDivisionError.

(** A method either returns a value, or prints a diagnostic and returns
    [None], or lets an exception escape. *)
Inductive outcome (A : Type) : Type :=
| Found (a : A)
| NoResult (d : diagnostic)
| Raised (e : exn).

Arguments Found {A} a.
Arguments NoResult {A} d.
Arguments Raised {A} e.

Definition bind {A B : Type} (m : outcome A) (k : A -> outcome B) : outcome B :=
  match m with
  | Found a => k a
  | NoResult d => NoResult d
  | Raised e => Raised e
  end.

Notation "x <- m ;; k" := (bind m (fun x => k))
  (at level 61, m at next level, right associativity).

(** ** The fragment of pandas the loader uses *)

Module Pandas.

(** A frame is its rows under their index labels; a series of postal codes
    keeps the labels of the rows it was taken from. *)
Definition DataFrame : Set := list (nat * PostalCodeRecord).
Definition Series : Set := list (nat * string).

(** [pd.read_csv]: rows are labelled 0, 1, 2, ... in file order. *)
Definition read_csv (rows : list PostalCodeRecord) : DataFrame :=
  combine (seq 0 (List.length rows)) rows.

Definition isna (x : float) : bool := PrimFloat.is_nan x.

(** [df.dropna(subset=["Longitude", "Latitude"], how="any")]. *)
Definition dropna (df : DataFrame) : DataFrame :=
  filter (fun ir => negb (isna (Longitude (snd ir)) || isna (Latitude (snd ir)))) df.

(** [df[mask]] for a row-wise boolean mask. *)
Definition loc (mask : PostalCodeRecord -> bool) (df : DataFrame) : DataFrame :=
  filter (fun ir => mask (snd ir)) df.

Definition index (df : DataFrame) : list nat := map fst df.

(** [df["PostalCode"]]. *)
Definition postal_code_column (df : DataFrame) : Series :=
  map (fun ir => (fst ir, PostalCode (snd ir))) df.

Definition labels (s : Series) : list nat := map fst s.
Definition values (s : Series) : list string := map snd s.

Definition has_label (l : nat) (ls : list nat) : bool := existsb (Nat.eqb l) ls.

(** [s.drop(labels)]: every label must be present, else [KeyError] names
    the absent ones. *)
Definition drop (ls : list nat) (s : Series) : outcome Series :=
  match filter (fun l => negb (has_label l (labels s))) ls with
  | [] => Found (filter (fun ic => negb (has_label (fst ic) ls)) s)
  | missing => Raised (KeyError missing)
  end.

End Pandas.
Import Pandas.

(** ** Python arithmetic *)

Definition pi : float := 0x1.921fb54442d18p+1.

(** [math.radians]. *)
Definition radians (x : float) : float := x * (pi / 180).

(** [x / y] on Python floats raises when the divisor is zero. *)
Definition py_div (x y : float) : outcome float :=
  if y =? 0 then Raised ZeroDivisionError else Found (x / y).

(** ** The loader *)

Section Loader.

(** [math.cos]. *)
Variable cos : float -> float.

(** [geodesic(p, q).kilometers] of geopy, on (latitude, longitude) pairs.
    The exact-distance search reads every column as text ([dtype=str]) and
    geopy converts the two cells with [float]; a coordinate of a record is
    the number its cell denotes. *)
Variable geodesic_km : float * float -> float * float -> float.

(** The 4-tuple [bounding_box]: south, west, north, east. *)
Definition bounding_box (reference_coordinates : float * float) (radius_km : float)
  : outcome (float * float * float * float) :=
  let lat0 := fst reference_coordinates in
  let lon0 := snd reference_coordinates in
  let south := lat0 - radius_km / 110.574 in
  dlon <- py_div radius_km (111.32 * cos (radians lat0)) ;;
  let west := lon0 - dlon in
  let north := lat0 + radius_km / 110.574 in
  dlon' <- py_div radius_km (111.32 * cos (radians lat0)) ;;
  let east := lon0 + dlon' in
  Found (south, west, north, east).

(** The mask of the selection inside the box. *)
Definition in_box (bb : float * float * float * float) (r : PostalCodeRecord) : bool :=
  let '(south, west, north, east) := bb in
  (south <=? Latitude r) && (Latitude r <=? north) &&
  (west <=? Longitude r) && (Longitude r <=? east).

(** Lines 46-76: the rows of the reference and the series selected inside
    the box, as they stand before the reference rows are removed. *)
Definition nearby_in_bounding_box
    (coordinates_file : option (list PostalCodeRecord))
    (reference_postal_code : option string)
    (radius_km : float) : outcome (DataFrame * Series) :=
  match coordinates_file with
  | None => NoResult FileMissing
  | Some rows =>
    let postal_codes_df := dropna (read_csv rows) in
    match reference_postal_code with
    | None => NoResult NoReferenceProvided
    | Some code =>
      let reference_row := loc (fun r => String.eqb (PostalCode r) code) postal_codes_df in
      match reference_row with
      | [] => NoResult ReferenceNotFound
      | (_, first) :: _ =>
        let reference_coordinates := (Latitude first, Longitude first) in
        bb <- bounding_box reference_coordinates radius_km ;;
        let nearby_postal_codes := postal_code_column (loc (in_box bb) postal_codes_df) in
        Found (reference_row, nearby_postal_codes)
      end
    end
  end.

(** Lines 78-81: [nearby_postal_codes.drop(reference_row.index)]. *)
Definition find_nearby_postal_codes_by_bounding
    (coordinates_file : option (list PostalCodeRecord))
    (reference_postal_code : option string)
    (radius_km : float) : outcome Series :=
  sel <- nearby_in_bounding_box coordinates_file reference_postal_code radius_km ;;
  drop (index (fst sel)) (snd sel).

Definition _calculate_distance (row : PostalCodeRecord)
    (reference_latitude reference_longitude : float) : float :=
  let point := (Latitude row, Longitude row) in
  let reference_point := (reference_latitude, reference_longitude) in
  geodesic_km point reference_point.

(** The mask [(Distance > 0) & (Distance < radius_km)]. *)
Definition in_range (reference_coordinates : float * float) (radius_km : float)
    (r : PostalCodeRecord) : bool :=
  let Distance :=
    _calculate_distance r (fst reference_coordinates) (snd reference_coordinates) in
  (0 <? Distance) && (Distance <? radius_km).

Definition find_nearby_postal_codes_by_distance
    (coordinates_file : option (list PostalCodeRecord))
    (reference_postal_code reference_city : option string)
    (radius_km : float) : outcome Series :=
  match coordinates_file with
  | None => NoResult FileMissing
  | Some rows =>
    let postal_codes_df := dropna (read_csv rows) in
    reference_row <-
      match reference_postal_code, reference_city with
      | Some code, _ =>
          Found (loc (fun r => String.eqb (PostalCode r) code) postal_codes_df)
      | None, Some city =>
          Found (loc (fun r => String.eqb (City r) city) postal_codes_df)
      | None, None => NoResult NoReferenceProvided
      end ;;
    match reference_row with
    | [] => NoResult ReferenceNotFound
    | (_, first) :: _ =>
      let reference_coordinates := (Latitude first, Longitude first) in
      Found (postal_code_column
               (loc (in_range reference_coordinates radius_km) postal_codes_df))
    end
  end.

End Loader.

(** ** Sample instances of the two library functions

    Used only to run the model on concrete data: a truncated Maclaurin
    series for the cosine and the equirectangular distance on a sphere of
    mean Earth radius. *)
Module Sample.

Definition cos (x : float) : float :=
  let x2 := x * x in
  1 - x2 / 2 * (1 - x2 / 12 * (1 - x2 / 30 * (1 - x2 / 56 * (1 - x2 / 90 *
    (1 - x2 / 132 * (1 - x2 / 182 * (1 - x2 / 240))))))).

Definition geodesic_km (p q : float * float) : float :=
  let dlat := radians (fst q - fst p) in
  let dlon := radians (snd q - snd p) * cos (radians ((fst p + fst q) / 2)) in
  6371.0088 * PrimFloat.sqrt (dlat * dlat + dlon * dlon).

Definition germany : list PostalCodeRecord :=
  [ mkRecord "10115" "Berlin" 52.5200 13.4050;
    mkRecord "20095" "Hamburg" 53.5511 9.9937;
    mkRecord "80331" "Munich" 48.1351 11.5820 ].

(** The reference code twice near each other, and another code at the very
    coordinates of the first row. *)
Definition berlin_twins : list PostalCodeRecord :=
  [ mkRecord "10115" "Berlin" 52.5200 13.4050;
    mkRecord "10115" "Berlin Mitte" 52.5300 13.3900;
    mkRecord "10117" "Berlin" 52.5200 13.4050 ].

(** The reference code twice, the second time far from the first. *)
Definition far_twins : list PostalCodeRecord :=
  [ mkRecord "10115" "Berlin" 52.5200 13.4050;
    mkRecord "10115" "Munich" 48.1351 11.5820 ].

(** A fourth row without latitude. *)
Definition partly_geocoded : list PostalCodeRecord :=
  germany ++ [ mkRecord "20099" "Hamburg" nan 10.0000 ].

(** No row has both coordinates. *)
Definition not_geocoded : list PostalCodeRecord :=
  [ mkRecord "10115" "Berlin" nan nan;
    mkRecord "20095" "Hamburg" 53.5511 nan ].

End Sample.


(** ** What the statements below speak of *)

(** Both coordinates are present. *)
Definition complete (r : PostalCodeRecord) : Prop :=
  isna (Latitude r) = false /\ isna (Longitude r) = false.

Definition coordinates (r : PostalCodeRecord) : float * float :=
  (Latitude r, Longitude r).

(** The row the selectors designate: a given postal code is compared with
    [PostalCode]; a city is looked at only when no postal code is given. *)
Definition selects (reference_postal_code reference_city : option string)
    (r : PostalCodeRecord) : bool :=
  match reference_postal_code, reference_city with
  | Some code, _ => String.eqb (PostalCode r) code
  | None, Some city => String.eqb (City r) city
  | None, None => false
  end.

(** Row [i0] of the file is the resolved reference: the first row, in file
    order, that has both coordinates and satisfies the selector. *)
Definition resolved (rows : list PostalCodeRecord) (sel : PostalCodeRecord -> bool)
    (i0 : nat) (r0 : PostalCodeRecord) : Prop :=
  nth_error rows i0 = Some r0 /\ complete r0 /\ sel r0 = true /\
  forall j r, j < i0 -> nth_error rows j = Some r -> complete r -> sel r = false.

(** The mask of [dropna], on one record. *)
Definition has_coordinates (r : PostalCodeRecord) : bool :=
  negb (isna (Longitude r) || isna (Latitude r)).

(** ** Python strings

    A [str] is its sequence of Unicode code points. *)

Module Str.

Definition str : Set := list N.

Definition comma : N := 44.
Definition space : N := 32.
Definition hyphen : N := 45.
Definition en_dash : N := 8211.

(** The class [[0-9]]. *)
Definition is_digit (c : N) : bool := (48 <=? c)%N && (c <=? 57)%N.

(** [str.isspace] on one code point. *)
Definition isspace (c : N) : bool :=
  ((9 <=? c) && (c <=? 13) || (28 <=? c) && (c <=? 32) || (c =? 133) || (c =? 160) ||
   (c =? 5760) || (8192 <=? c) && (c <=? 8202) || (c =? 8232) || (c =? 8233) ||
   (c =? 8239) || (c =? 8287) || (c =? 12288))%N.

Fixpoint lstrip (chars : N -> bool) (s : str) : str :=
  match s with
  | c :: s' => if chars c then lstrip chars s' else s
  | [] => []
  end.

Definition rstrip (chars : N -> bool) (s : str) : str := rev (lstrip chars (rev s)).

(** [s.strip(chars)], the characters given as a predicate; [s.strip()]. *)
Definition strip_chars (chars : N -> bool) (s : str) : str := rstrip chars (lstrip chars s).
Definition strip (s : str) : str := strip_chars isspace s.

(** [s.split(sep)] for a separator of one character. *)
Fixpoint split (sep : N) (s : str) : list str :=
  match s with
  | [] => [[]]
  | c :: s' =>
    if (c =? sep)%N then [] :: split sep s'
    else match split sep s' with
         | w :: ws => (c :: w) :: ws
         | [] => [[c]]
         end
  end.

(** [s.replace(c, "")] for one character [c]. *)
Definition remove (c : N) (s : str) : str := filter (fun x => negb (x =? c)%N) s.

(** [c in s]. *)
Definition contains (c : N) (s : str) : bool := existsb (N.eqb c) s.

(** [s.endswith(c)]. *)
Definition endswith (c : N) (s : str) : bool :=
  match rev s with
  | x :: _ => (x =? c)%N
  | [] => false
  end.

(** [re.findall(r"\d+", s)] on a string whose digits are all in [[0-9]]: the
    maximal runs of digits, from left to right.  [run] is the run being
    read, last digit first. *)
Fixpoint findall_digits_from (run : str) (s : str) : list str :=
  match s with
  | [] => match run with [] => [] | _ => [rev run] end
  | c :: s' =>
    if is_digit c then findall_digits_from (c :: run) s'
    else match run with
         | [] => findall_digits_from [] s'
         | _ => rev run :: findall_digits_from [] s'
         end
  end.

Definition findall_digits (s : str) : list str := findall_digits_from [] s.

(** [int(s)] on a string of digits in [[0-9]]. *)
Definition int (s : str) : N := fold_left (fun n c => 10 * n + (c - 48))%N s 0%N.

Fixpoint str_of_uint (d : Decimal.uint) : str :=
  match d with
  | Decimal.Nil => []
  | Decimal.D0 d => 48%N :: str_of_uint d
  | Decimal.D1 d => 49%N :: str_of_uint d
  | Decimal.D2 d => 50%N :: str_of_uint d
  | Decimal.D3 d => 51%N :: str_of_uint d
  | Decimal.D4 d => 52%N :: str_of_uint d
  | Decimal.D5 d => 53%N :: str_of_uint d
  | Decimal.D6 d => 54%N :: str_of_uint d
  | Decimal.D7 d => 55%N :: str_of_uint d
  | Decimal.D8 d => 56%N :: str_of_uint d
  | Decimal.D9 d => 57%N :: str_of_uint d
  end.

(** [str(n)] and [f"{n:05d}"] for a natural number. *)
Definition decimal (n : N) : str := str_of_uint (N.to_uint n).
Definition format_05d (n : N) : str :=
  let digits := decimal n in
  repeat 48%N (5 - List.length digits) ++ digits.

(** [range(a, b)]. *)
Definition range (a b : N) : list N :=
  map (fun k => (a + N.of_nat k)%N) (seq 0 (N.to_nat (b - a))).

End Str.

(** ** The transformation step: [PostalCodeTransform._str_to_list] *)

(** What a call of [_str_to_list] ends in: the list, or the [ValueError] of
    an unpacking into [start, end] that does not find two values. *)
Inductive raises (A : Type) : Type :=
| Returns (a : A)
| ValueError.

Arguments Returns {A} a.
Arguments ValueError {A}.

(** The characters [re.sub(r"[^0-9,–]", "", s)] keeps. *)
Definition kept (c : N) : bool :=
  Str.is_digit c || (c =? Str.comma)%N || (c =? Str.en_dash)%N.

(** The [for] loop over [s_splited]; [s_list] is the list built so far. *)
Fixpoint str_to_list_loop (s_splited : list Str.str) (s_list : list Str.str)
    : raises (list Str.str) :=
  match s_splited with
  | [] => Returns s_list
  | element :: rest =>
    let element := Str.remove Str.space element in
    if Str.contains Str.en_dash element then
      match Str.findall_digits element with
      | [start; end_] =>
        str_to_list_loop rest
          (s_list ++ map Str.format_05d (Str.range (Str.int start) (Str.int end_ + 1)))
      | _ => ValueError
      end
    else if Str.endswith Str.comma element then
      str_to_list_loop rest (s_list ++ [removelast element])
    else match element with
         | [] => Returns s_list
         | _ => str_to_list_loop rest (s_list ++ [element])
         end
  end.

Definition _str_to_list (s : Str.str) : raises (list Str.str) :=
  let new_s := filter kept s in
  let s_strip := Str.strip new_s in
  let s_splited := Str.split Str.comma s_strip in
  str_to_list_loop s_splited [].

(** The comma-separated segments of the text, once cleaned: what the loop
    of [_str_to_list] runs over. *)
Definition segments (s : Str.str) : list Str.str :=
  Str.split Str.comma (filter kept s).

(** A text of digits and en dashes only. *)
Definition segment (e : Str.str) : Prop :=
  Forall (fun c => Str.is_digit c = true \/ c = Str.en_dash) e.

(** All characters are digits in [[0-9]]. *)
Definition digits (s : Str.str) : Prop := forallb Str.is_digit s = true.

(** A code: a non-empty string of digits. *)
Definition code (c : Str.str) : Prop := c <> [] /\ digits c.

(** Code points of a Rocq string of ASCII characters, to write examples. *)
Definition ascii_str (s : string) : Str.str :=
  map (fun a => N.of_nat (Ascii.nat_of_ascii a)) (list_ascii_of_string s).

(** ** The geocoding step: [PostalCodeTransform.geocode_postal_code] *)

(** What one call of [geolocator.geocode] does: it returns a location, or
    [None], or raises [GeocoderTimedOut] or [GeocoderServiceError], and then
    the text of the exception holds "HTTP Error 503" or not. *)
Inductive reply : Set :=
| Location (longitude latitude : float)
| NoLocation
| ServiceError (http_503 : bool).

Definition retry_delay : nat := 5.

(** The [for _ in range(3)] loop.  [geocode k] is the reply to call number
    [k] of this invocation; the result comes with the number of calls made
    and the seconds slept.  [None] is the end of the function without a
    [return]. *)
Fixpoint geocode_attempts (attempts : nat) (geocode : nat -> reply) (postal_code : string)
    (calls slept : nat) : option (string * option float * option float) * nat * nat :=
  match attempts with
  | O => (None, calls, slept)
  | S attempts' =>
    match geocode calls with
    | Location longitude latitude =>
      (Some (postal_code, Some longitude, Some latitude), S calls, slept)
    | NoLocation => (Some (postal_code, None, None), S calls, slept)
    | ServiceError true =>
      geocode_attempts attempts' geocode postal_code (S calls) (slept + retry_delay)
    | ServiceError false => (Some (postal_code, None, None), S calls, slept)
    end
  end.

Definition geocode_postal_code (geocode : nat -> reply) (postal_code : string)
    : option (string * option float * option float) * nat * nat :=
  geocode_attempts 3 geocode postal_code 0 0.

(** What a reply other than an HTTP 503 error makes the function return. *)
Definition answer (postal_code : string) (r : reply)
    : string * option float * option float :=
  match r with
  | Location longitude latitude => (postal_code, Some longitude, Some latitude)
  | _ => (postal_code, None, None)
  end.

(** ** The splitting step: [PostalCodeTransform.split_cities_postal_codes] *)

Module Split.

Definition quote : N := 39.
Definition lbracket : N := 91.
Definition rbracket : N := 93.

(** Membership in the set of characters given to [strip]. *)
Definition in_chars (chars : list N) (c : N) : bool := existsb (N.eqb c) chars.

Definition str_eqb (a b : Str.str) : bool :=
  if list_eq_dec N.eq_dec a b then true else false.

(** [.str.strip(" '[]").astype(str).str.split(',')] on one cell. *)
Definition split_cell (cell : Str.str) : list Str.str :=
  Str.split Str.comma
    (Str.strip_chars (in_chars [Str.space; quote; lbracket; rbracket]) cell).

(** [.str.strip(' ').str.replace("'", "")] on one cell. *)
Definition clean_cell (cell : Str.str) : Str.str :=
  Str.remove quote (Str.strip_chars (in_chars [Str.space]) cell).

Section Frames.

(** The other columns of a row. *)
Variable row : Type.

(** [df.explode('PostalCode')]: one row for each element of the list, in
    order (the lists are never empty here). *)
Definition explode (df : list (row * list Str.str)) : list (row * Str.str) :=
  flat_map (fun r => map (pair (fst r)) (snd r)) df.

(** [df.drop_duplicates(subset=['PostalCode'])]: the first row of each value
    is kept; [seen] holds the values met so far. *)
Fixpoint drop_duplicates_from (seen : list Str.str) (df : list (row * Str.str))
    : list (row * Str.str) :=
  match df with
  | [] => []
  | r :: df' =>
    if existsb (str_eqb (snd r)) seen then drop_duplicates_from seen df'
    else r :: drop_duplicates_from (snd r :: seen) df'
  end.

Definition drop_duplicates (df : list (row * Str.str)) : list (row * Str.str) :=
  drop_duplicates_from [] df.

(** The frame written to [<country>_cities_splitted_postalcodes.csv], from
    the frame read from [<country>_cities_cleaned_postalcodes.csv]. *)
Definition split_cities_postal_codes (df : list (row * Str.str)) : list (row * Str.str) :=
  let df := map (fun r => (fst r, split_cell (snd r))) df in
  let new_df := explode df in
  let new_df := drop_duplicates new_df in
  map (fun r => (fst r, clean_cell (snd r))) new_df.

End Frames.

(** The text of a list of codes, as [to_csv] writes the lists that
    [_str_to_list] returns: Python's [str] of a list of strings of digits,
    [['01067', '01069']]. *)
Definition quoted (c : Str.str) : Str.str := quote :: c ++ [quote].

Fixpoint joined (l : list Str.str) : Str.str :=
  match l with
  | [] => []
  | [c] => quoted c
  | c :: l' => quoted c ++ Str.comma :: Str.space :: joined l'
  end.

Definition list_text (l : list Str.str) : Str.str := lbracket :: joined l ++ [rbracket].

(** The text between the first and the last code of a list, both included. *)
Fixpoint inner (l : list Str.str) : Str.str :=
  match l with
  | [] => []
  | [c] => c
  | c :: l' => c ++ quote :: Str.comma :: Str.space :: quote :: inner l'
  end.

(** The pieces of a cell before they are cleaned: the only code of a list
    is bare, a first code keeps the quote after it, a last code the space
    and the quote before it, and the codes in between all three. *)
Fixpoint later_pieces (l : list Str.str) : list Str.str :=
  match l with
  | [] => []
  | [c] => [Str.space :: quote :: c]
  | c :: l' => (Str.space :: quote :: c ++ [quote]) :: later_pieces l'
  end.

Definition raw_pieces (l : list Str.str) : list Str.str :=
  match l with
  | [] => [[]]
  | [c] => [c]
  | c :: l' => (c ++ [quote]) :: later_pieces l'
  end.

End Split.

(** ** The extraction step: [PostalCodeExtraction.process_string] *)

Module Extraction.

Definition lparen : N := 40.
Definition rparen : N := 41.
Definition slash : N := 47.

(** [re.sub(r"\([^)]*\)", "", s)].  A match starts at an opening parenthesis
    and ends at the first closing one after it; where no closing one
    follows, the opening parenthesis stays.  [pending] holds, last
    character first, what was read since an opening parenthesis that is
    not closed yet. *)
Fixpoint remove_parenthesised (pending : option Str.str) (s : Str.str) : Str.str :=
  match s with
  | [] =>
    match pending with
    | None => []
    | Some read => lparen :: rev read
    end
  | c :: s' =>
    match pending with
    | None =>
      if (c =? lparen)%N then remove_parenthesised (Some []) s'
      else c :: remove_parenthesised None s'
    | Some read =>
      if (c =? rparen)%N then remove_parenthesised None s'
      else remove_parenthesised (Some (c :: read)) s'
    end
  end.

(** [s.split(sep)[0]]. *)
Fixpoint before (sep : N) (s : Str.str) : Str.str :=
  match s with
  | [] => []
  | c :: s' => if (c =? sep)%N then [] else c :: before sep s'
  end.

Definition process_string (input_string : Str.str) : Str.str :=
  let result_string := remove_parenthesised None input_string in
  Str.strip (before slash result_string).

(** No closing parenthesis comes after an opening one. *)
Definition open_only (s : Str.str) : Prop :=
  forall a b, s = a ++ lparen :: b -> ~ In rparen b.

(** A text that [process_string] has nothing to do on: no slash, no closing
    parenthesis after an opening one, no white space at either end. *)
Definition plain (s : Str.str) : Prop :=
  ~ In slash s /\ open_only s /\
  (forall c t, s = c :: t -> Str.isspace c = false) /\
  (forall t c, s = t ++ [c] -> Str.isspace c = false).

End Extraction.

(** ** The merge of [PostalCodeTransform.get_coordinates] *)

Section Merge.

(** The other columns of the frame of postal codes. *)
Variable row : Type.

(** [pd.merge(postal_codes_df, coordinates_df, on='PostalCode', how='left')]:
    every row of the left frame, in order, once with each row of the right
    frame that has its postal code, and once with no coordinates when there
    is none. *)
Definition merge_left (postal_codes_df : list (row * string))
    (coordinates_df : list (string * option float * option float))
    : list (row * string * option float * option float) :=
  flat_map
    (fun l =>
       match filter (fun t => String.eqb (fst (fst t)) (snd l)) coordinates_df with
       | [] => [(fst l, snd l, None, None)]
       | found => map (fun t => (fst l, snd l, snd (fst t), snd t)) found
       end)
    postal_codes_df.

End Merge.

(** ** Order on binary64 numbers *)

Module FloatOrder.

Ltac cmp_cases :=
  repeat match goal with
  | |- context [Z.compare ?a ?b] => destruct (Z.compare_spec a b)
  | |- context [Pos.compare ?a ?b] => destruct (Pos.compare_spec a b)
  | H : context [Z.compare ?a ?b] |- _ => destruct (Z.compare_spec a b)
  | H : context [Pos.compare ?a ?b] |- _ => destruct (Pos.compare_spec a b)
  end.

Ltac spec_order :=
  unfold SFltb, SFleb, SFcompare; intros;
  repeat match goal with
  | x : spec_float |- _ => destruct x
  | b : bool |- _ => destruct b
  end;
  try discriminate; try reflexivity;
  change (Pos.compare_cont Eq) with Pos.compare in *;
  cmp_cases; simpl in *; try discriminate; try reflexivity; try lia.

Lemma SFltb_trans (a b c : spec_float) :
  SFltb a b = true -> SFltb b c = true -> SFltb a c = true.
Proof. revert a b c. spec_order. Qed.

Lemma SFltb_irrefl (a : spec_float) : SFltb a a = false.
Proof. revert a. spec_order. Qed.

Lemma SFltb_not_ge (a b : spec_float) : SFltb a b = true -> SFleb b a = false.
Proof. revert a b. spec_order. Qed.

Lemma SFeqb_not_lt (a b : spec_float) :
  SFeqb a b = true -> SFltb a b = false /\ SFltb b a = false.
Proof. revert a b. unfold SFeqb. split; revert H; spec_order. Qed.

Lemma ltb_trans (x y z : float) :
  (x <? y) = true -> (y <? z) = true -> (x <? z) = true.
Proof. rewrite !ltb_spec. apply SFltb_trans. Qed.

Lemma ltb_irrefl (x : float) : (x <? x) = false.
Proof. rewrite ltb_spec. apply SFltb_irrefl. Qed.

Lemma ltb_not_ge (x y : float) : (x <? y) = true -> (y <=? x) = false.
Proof. rewrite ltb_spec, leb_spec. apply SFltb_not_ge. Qed.

Lemma eqb_not_lt (x y : float) :
  (x =? y) = true -> (x <? y) = false /\ (y <? x) = false.
Proof. rewrite eqb_spec, !ltb_spec. apply SFeqb_not_lt. Qed.

End FloatOrder.

(** ** Frames read from a file *)

Module Frame.

Local Open Scope nat_scope.

Lemma in_combine_seq (A : Type) (l : list A) (k i : nat) (a : A) :
  In (i, a) (combine (seq k (List.length l)) l) <->
  k <= i /\ nth_error l (i - k) = Some a.
Proof.
  revert k; induction l as [|x l IH]; intros k; simpl.
  - split; [tauto|]. intros [_ H]. destruct (i - k); discriminate.
  - rewrite IH. split.
    + intros [H | [Hle H]].
      * inversion H; subst. split; [lia|]. now rewrite Nat.sub_diag.
      * split; [lia|]. replace (i - k)%nat with (S (i - S k)) by lia. exact H.
    + intros [Hle H]. destruct (Nat.eq_dec i k) as [->|Hne].
      * rewrite Nat.sub_diag in H. simpl in H. left. congruence.
      * right. split; [lia|].
        replace (i - k)%nat with (S (i - S k)) in H by lia. exact H.
Qed.

Lemma in_read_csv (rows : list PostalCodeRecord) (i : nat) (r : PostalCodeRecord) :
  In (i, r) (read_csv rows) <-> nth_error rows i = Some r.
Proof.
  unfold read_csv. rewrite in_combine_seq, Nat.sub_0_r.
  split; [tauto | intros H; split; [lia | exact H]].
Qed.

Lemma completeb_spec (r : PostalCodeRecord) :
  negb (isna (Longitude r) || isna (Latitude r)) = true <-> complete r.
Proof.
  unfold complete. rewrite negb_true_iff, orb_false_iff. tauto.
Qed.

Lemma in_dropna (rows : list PostalCodeRecord) (i : nat) (r : PostalCodeRecord) :
  In (i, r) (dropna (read_csv rows)) <-> nth_error rows i = Some r /\ complete r.
Proof.
  unfold dropna. rewrite filter_In, in_read_csv. simpl.
  now rewrite completeb_spec.
Qed.

Lemma in_loc (mask : PostalCodeRecord -> bool) (df : DataFrame) (i : nat)
    (r : PostalCodeRecord) :
  In (i, r) (loc mask df) <-> In (i, r) df /\ mask r = true.
Proof. unfold loc. now rewrite filter_In. Qed.

Lemma in_postal_code_column (df : DataFrame) (i : nat) (c : string) :
  In (i, c) (postal_code_column df) <-> exists r, In (i, r) df /\ PostalCode r = c.
Proof.
  unfold postal_code_column. rewrite in_map_iff. split.
  - intros [[j r] [E H]]. simpl in E. inversion E; subst. now exists r.
  - intros [r [H E]]. exists (i, r). simpl. now rewrite E.
Qed.

Lemma in_labels (s : Series) (i : nat) :
  In i (labels s) <-> exists c, In (i, c) s.
Proof.
  unfold labels. rewrite in_map_iff. split.
  - intros [[j c] [E H]]. simpl in E. subst. now exists c.
  - intros [c H]. now exists (i, c).
Qed.

Lemma in_index (df : DataFrame) (i : nat) :
  In i (index df) <-> exists r, In (i, r) df.
Proof.
  unfold index. rewrite in_map_iff. split.
  - intros [[j r] [E H]]. simpl in E. subst. now exists r.
  - intros [r H]. now exists (i, r).
Qed.

Lemma has_label_spec (l : nat) (ls : list nat) : has_label l ls = true <-> In l ls.
Proof.
  unfold has_label. rewrite existsb_exists. split.
  - intros [x [H E]]. apply Nat.eqb_eq in E. now subst.
  - intros H. exists l. split; [exact H | apply Nat.eqb_refl].
Qed.

(** The head of a filtered frame is the first row, in file order, that
    passes the filter. *)
Lemma filter_head_combine_seq (A : Type) (f : nat * A -> bool) (l : list A) :
  forall (k i : nat) (a : A) (rest : list (nat * A)),
    filter f (combine (seq k (List.length l)) l) = (i, a) :: rest ->
    k <= i /\ nth_error l (i - k) = Some a /\ f (i, a) = true /\
    forall j b, k <= j -> j < i -> nth_error l (j - k) = Some b -> f (j, b) = false.
Proof.
  induction l as [|x l IH]; intros k i a rest; simpl; [discriminate|].
  destruct (f (k, x)) eqn:Hf.
  - intros E. inversion E; subst. rewrite Nat.sub_diag. simpl.
    repeat split; auto. intros; lia.
  - intros E. apply IH in E. destruct E as (Hle & Hn & Hfi & Hmin).
    split; [lia|]. split.
    + replace (i - k)%nat with (S (i - S k)) by lia. exact Hn.
    + split; [exact Hfi|]. intros j b Hkj Hji Hb.
      destruct (Nat.eq_dec j k) as [->|Hne].
      * rewrite Nat.sub_diag in Hb. simpl in Hb. congruence.
      * apply Hmin; try lia.
        replace (j - k)%nat with (S (j - S k)) in Hb by lia. exact Hb.
Qed.

Lemma filter_filter (A : Type) (f g : A -> bool) (l : list A) :
  filter g (filter f l) = filter (fun x => f x && g x) l.
Proof.
  induction l as [|x l IH]; simpl; [reflexivity|].
  destruct (f x); simpl; [destruct (g x)|]; now rewrite IH.
Qed.

Lemma filter_none (A : Type) (f : A -> bool) (l : list A) :
  (forall x, In x l -> f x = false) -> filter f l = [].
Proof.
  induction l as [|x l IH]; simpl; intros H; [reflexivity|].
  rewrite (H x (or_introl eq_refl)). apply IH. intros y Hy. apply H. now right.
Qed.

(** The first row of [df[mask]], after [dropna], is the resolved reference. *)
Lemma loc_head_resolved (rows : list PostalCodeRecord) (sel : PostalCodeRecord -> bool)
    (i0 : nat) (r0 : PostalCodeRecord) (rest : DataFrame) :
  loc sel (dropna (read_csv rows)) = (i0, r0) :: rest -> resolved rows sel i0 r0.
Proof.
  unfold loc, dropna, read_csv. rewrite filter_filter. intros E.
  apply filter_head_combine_seq in E. simpl in E.
  destruct E as (_ & Hn & Hf & Hmin). rewrite Nat.sub_0_r in Hn.
  apply andb_true_iff in Hf. destruct Hf as [Hc Hs].
  apply completeb_spec in Hc.
  split; [exact Hn|]. split; [exact Hc|]. split; [exact Hs|].
  intros j r Hj Hr Hcr. specialize (Hmin j r (Nat.le_0_l j) Hj).
  rewrite Nat.sub_0_r in Hmin. specialize (Hmin Hr).
  apply andb_false_iff in Hmin. destruct Hmin as [H|H]; [|exact H].
  apply completeb_spec in Hcr. congruence.
Qed.

(** The resolved reference is unique. *)
Lemma resolved_unique (rows : list PostalCodeRecord) (sel : PostalCodeRecord -> bool)
    (i j : nat) (r r' : PostalCodeRecord) :
  resolved rows sel i r -> resolved rows sel j r' -> i = j /\ r = r'.
Proof.
  intros (Hi & Hci & Hsi & Hmi) (Hj & Hcj & Hsj & Hmj).
  assert (i = j) as ->.
  { destruct (Nat.lt_trichotomy i j) as [H|[H|H]]; [|exact H|].
    - specialize (Hmj i r H Hi Hci). congruence.
    - specialize (Hmi j r' H Hj Hcj). congruence. }
  split; [reflexivity | congruence].
Qed.

End Frame.

(** ** The exact-distance search *)

Section Distance.

Variable geodesic_km : float * float -> float * float -> float.

(** The call, as one case analysis on the selectors and the matching rows. *)
Lemma distance_outcome (rows : list PostalCodeRecord) (code city : option string)
    (R : float) :
  find_nearby_postal_codes_by_distance geodesic_km (Some rows) code city R =
  match code, city with
  | None, None => NoResult NoReferenceProvided
  | _, _ =>
    match loc (selects code city) (dropna (read_csv rows)) with
    | [] => NoResult ReferenceNotFound
    | (_, first) :: _ =>
      Found (postal_code_column
               (loc (in_range geodesic_km (coordinates first) R) (dropna (read_csv rows))))
    end
  end.
Proof. destruct code, city; reflexivity. Qed.

Lemma distance_found (rows : list PostalCodeRecord) (code city : option string)
    (R : float) (s : Series) :
  find_nearby_postal_codes_by_distance geodesic_km (Some rows) code city R = Found s ->
  exists i0 r0,
    resolved rows (selects code city) i0 r0 /\
    s = postal_code_column
          (loc (in_range geodesic_km (coordinates r0) R) (dropna (read_csv rows))).
Proof.
  rewrite distance_outcome. intros H.
  assert (match loc (selects code city) (dropna (read_csv rows)) with
          | [] => NoResult ReferenceNotFound
          | (_, first) :: _ =>
            Found (postal_code_column
                     (loc (in_range geodesic_km (coordinates first) R)
                          (dropna (read_csv rows))))
          end = Found s) as H'.
  { destruct code, city; try exact H; discriminate. }
  clear H. destruct (loc (selects code city) (dropna (read_csv rows)))
    as [|[i0 r0] rest] eqn:E; [discriminate|].
  exists i0, r0. split.
  - exact (Frame.loc_head_resolved _ _ E).
  - congruence.
Qed.

Lemma distance_resolved (rows : list PostalCodeRecord) (code city : option string)
    (R : float) (i0 : nat) (r0 : PostalCodeRecord) :
  resolved rows (selects code city) i0 r0 ->
  find_nearby_postal_codes_by_distance geodesic_km (Some rows) code city R =
  Found (postal_code_column
           (loc (in_range geodesic_km (coordinates r0) R) (dropna (read_csv rows)))).
Proof.
  intros Hres. rewrite distance_outcome.
  assert (In (i0, r0) (loc (selects code city) (dropna (read_csv rows)))) as Hin.
  { destruct Hres as (Hn & Hc & Hs & _).
    apply Frame.in_loc. split; [apply Frame.in_dropna; tauto | exact Hs]. }
  destruct (loc (selects code city) (dropna (read_csv rows)))
    as [|[i1 r1] rest] eqn:E; [destruct Hin|].
  apply Frame.loc_head_resolved in E.
  destruct (Frame.resolved_unique E Hres) as [_ ->].
  destruct code, city; try reflexivity.
  destruct Hres as (_ & _ & Hs & _). discriminate.
Qed.

(** Membership in the selected series. *)
Lemma in_selected (rows : list PostalCodeRecord) (ref : float * float) (R : float)
    (i : nat) (c : string) :
  In (i, c) (postal_code_column (loc (in_range geodesic_km ref R) (dropna (read_csv rows))))
  <->
  exists r, nth_error rows i = Some r /\ PostalCode r = c /\ complete r /\
            (0 <? _calculate_distance geodesic_km r (fst ref) (snd ref)) = true /\
            (_calculate_distance geodesic_km r (fst ref) (snd ref) <? R) = true.
Proof.
  rewrite Frame.in_postal_code_column. split.
  - intros [r [H E]]. exists r. apply Frame.in_loc in H. destruct H as [H M].
    apply Frame.in_dropna in H. unfold in_range in M.
    apply andb_true_iff in M. tauto.
  - intros [r (Hn & E & Hc & H0 & HR)]. exists r. split; [|exact E].
    apply Frame.in_loc. split; [apply Frame.in_dropna; tauto|].
    unfold in_range. apply andb_true_iff. tauto.
Qed.

(** C1. When the selector resolves to row [i0] (the first coordinate-complete
    row that matches it), the exact-distance search returns a series, and
    the series holds exactly the rows (label and postal code) that have both
    coordinates and whose geodesic distance [d] to the coordinates of row
    [i0] satisfies [0 < d] and [d < radius_km]; so does its list of postal
    codes.  Both bounds are strict: a row at distance zero and a row at
    distance [radius_km] are left out, and with them, when the geodesic of
    the reference point to itself is zero, every row at the reference
    coordinates, the reference row included. *)
Theorem distance_search_open_interval
    (rows : list PostalCodeRecord) (code city : option string) (R : float)
    (i0 : nat) (r0 : PostalCodeRecord) :
  resolved rows (selects code city) i0 r0 ->
  let d := fun r =>
    geodesic_km (Latitude r, Longitude r) (Latitude r0, Longitude r0) in
  exists s,
    find_nearby_postal_codes_by_distance geodesic_km (Some rows) code city R = Found s /\
    (forall i c, In (i, c) s <->
       exists r, nth_error rows i = Some r /\ PostalCode r = c /\ complete r /\
                 (0 <? d r) = true /\ (d r <? R) = true) /\
    (forall c, In c (values s) <->
       exists r, In r rows /\ PostalCode r = c /\ complete r /\
                 (0 <? d r) = true /\ (d r <? R) = true) /\
    (forall i r, nth_error rows i = Some r -> (d r =? 0) = true -> ~ In i (labels s)) /\
    (forall i r, nth_error rows i = Some r -> (d r =? R) = true -> ~ In i (labels s)) /\
    ((d r0 =? 0) = true ->
     forall i r, nth_error rows i = Some r -> coordinates r = coordinates r0 ->
                 ~ In i (labels s)).
Proof.
  intros Hres d. eexists. split; [apply (distance_resolved R Hres)|].
  assert (forall i c,
    In (i, c) (postal_code_column
                 (loc (in_range geodesic_km (coordinates r0) R) (dropna (read_csv rows))))
    <-> exists r, nth_error rows i = Some r /\ PostalCode r = c /\ complete r /\
                  (0 <? d r) = true /\ (d r <? R) = true) as Hmem.
  { intros i c. exact (in_selected rows (coordinates r0) R i c). }
  assert (forall i r, nth_error rows i = Some r ->
    In i (labels (postal_code_column
                    (loc (in_range geodesic_km (coordinates r0) R) (dropna (read_csv rows)))))
    -> (0 <? d r) = true /\ (d r <? R) = true) as Hlab.
  { intros i r Hn Hin. apply Frame.in_labels in Hin. destruct Hin as [c Hin].
    apply Hmem in Hin. destruct Hin as (r' & Hn' & _ & _ & H0 & HR).
    assert (r' = r) as -> by congruence. tauto. }
  split; [exact Hmem|]. split; [|split; [|split]].
  - intros c. unfold values. rewrite in_map_iff. split.
    + intros [[i c'] [E Hin]]. simpl in E. subst c'. apply Hmem in Hin.
      destruct Hin as (r & Hn & Hrest). exists r. split; [|exact Hrest].
      eapply nth_error_In; eassumption.
    + intros (r & Hin & Hrest). apply In_nth_error in Hin. destruct Hin as [i Hn].
      exists (i, c). split; [reflexivity|]. apply Hmem. exists r. tauto.
  - intros i r Hn Hz Hin. destruct (Hlab i r Hn Hin) as [H0 _].
    apply FloatOrder.eqb_not_lt in Hz. destruct Hz as [_ Hz]. congruence.
  - intros i r Hn Hz Hin. destruct (Hlab i r Hn Hin) as [_ HR].
    apply FloatOrder.eqb_not_lt in Hz. destruct Hz as [Hz _]. congruence.
  - intros Hz i r Hn Hc Hin. destruct (Hlab i r Hn Hin) as [H0 _].
    assert (d r = d r0) as E.
    { change (geodesic_km (coordinates r) (coordinates r0) =
              geodesic_km (coordinates r0) (coordinates r0)). now rewrite Hc. }
    rewrite E in H0. apply FloatOrder.eqb_not_lt in Hz. destruct Hz as [_ Hz]. congruence.
Qed.

(** C4. Monotonicity in the radius: when [R1 < R2] and the search with radius
    [R1] returns a series, the search with radius [R2] on the same file and
    selectors returns a series too, and it contains every row, and so every
    postal code, of the first. *)
Theorem distance_search_monotone
    (rows : list PostalCodeRecord) (code city : option string) (R1 R2 : float)
    (s1 : Series) :
  (R1 <? R2) = true ->
  find_nearby_postal_codes_by_distance geodesic_km (Some rows) code city R1 = Found s1 ->
  exists s2,
    find_nearby_postal_codes_by_distance geodesic_km (Some rows) code city R2 = Found s2 /\
    incl s1 s2 /\ incl (values s1) (values s2).
Proof.
  intros HR H. apply distance_found in H. destruct H as (i0 & r0 & Hres & ->).
  eexists. split; [apply (distance_resolved R2 Hres)|].
  assert (incl
    (postal_code_column
       (loc (in_range geodesic_km (coordinates r0) R1) (dropna (read_csv rows))))
    (postal_code_column
       (loc (in_range geodesic_km (coordinates r0) R2) (dropna (read_csv rows))))) as Hincl.
  { intros [i c] Hin. apply in_selected in Hin. apply in_selected.
    destruct Hin as (r & Hn & Hc & Hcompl & H0 & H1). exists r.
    repeat (split; [assumption|]). eapply FloatOrder.ltb_trans; eassumption. }
  split; [exact Hincl|]. unfold values. now apply incl_map.
Qed.

(** No distance lies strictly between zero and a radius that is not positive. *)
Lemma in_range_nonpositive (ref : float * float) (R : float) (r : PostalCodeRecord) :
  (R <=? 0) = true -> in_range geodesic_km ref R r = false.
Proof.
  intros HR. unfold in_range. apply andb_false_iff.
  destruct (0 <? _calculate_distance geodesic_km r (fst ref) (snd ref)) eqn:H0;
    [right | now left].
  destruct (_calculate_distance geodesic_km r (fst ref) (snd ref) <? R) eqn:H1;
    [|reflexivity].
  pose proof (FloatOrder.ltb_trans H0 H1) as H.
  apply FloatOrder.ltb_not_ge in H. congruence.
Qed.

(** C6, as the code has it.  The radius is never validated: with
    [radius_km <= 0] the exact-distance search ends as it does with any other
    radius (the same diagnostic when the file is missing, no selector is
    given or no row matches), except that a returned series is empty.  It
    returns normally and raises nothing. *)
Theorem distance_search_nonpositive_radius
    (file : option (list PostalCodeRecord)) (code city : option string) (R R' : float) :
  (R <=? 0) = true ->
  find_nearby_postal_codes_by_distance geodesic_km file code city R =
  (_ <- find_nearby_postal_codes_by_distance geodesic_km file code city R' ;; Found []).
Proof.
  intros HR. destruct file as [rows|]; [|reflexivity].
  rewrite !distance_outcome.
  assert (forall ref,
    postal_code_column (loc (in_range geodesic_km ref R) (dropna (read_csv rows))) = [])
    as Hempty.
  { intros ref. unfold loc. rewrite Frame.filter_none; [reflexivity|].
    intros x _. now apply in_range_nonpositive. }
  destruct (loc (selects code city) (dropna (read_csv rows))) as [|[i0 r0] rest];
    destruct code, city; simpl; try reflexivity; now rewrite Hempty.
Qed.

(** C7, as the code has it.  The selectors are tried in order.  When a
    postal code is given it alone is used: a city given with it is ignored,
    the call ends exactly as the call with the postal code only, and it
    returns a series whenever a row with both coordinates carries the
    postal code, whatever the city.  On a file that exists, the call ends
    with "No reference place was provided" exactly when neither selector
    is given. *)
Theorem distance_search_postal_code_first
    (file : option (list PostalCodeRecord)) (code city : option string) (R : float) :
  (forall c, code = Some c ->
     find_nearby_postal_codes_by_distance geodesic_km file code city R =
     find_nearby_postal_codes_by_distance geodesic_km file (Some c) None R) /\
  (forall rows c i0 r0,
     file = Some rows -> code = Some c ->
     nth_error rows i0 = Some r0 -> complete r0 -> PostalCode r0 = c ->
     exists s, find_nearby_postal_codes_by_distance geodesic_km file code city R
                 = Found s) /\
  (find_nearby_postal_codes_by_distance geodesic_km file code city R
     = NoResult NoReferenceProvided <->
   file <> None /\ code = None /\ city = None).
Proof.
  split; [|split].
  - intros c ->. destruct file; reflexivity.
  - intros rows c i0 r0 -> -> Hn Hc Hcode. rewrite distance_outcome.
    assert (In (i0, r0) (loc (selects (Some c) city) (dropna (read_csv rows)))) as Hin.
    { apply Frame.in_loc. split; [apply Frame.in_dropna; tauto|].
      simpl. now apply String.eqb_eq. }
    destruct (loc (selects (Some c) city) (dropna (read_csv rows))) as [|[i1 r1] rest];
      [destruct Hin|]. destruct city; eauto.
  - destruct file as [rows|].
    + rewrite distance_outcome.
      destruct (loc (selects code city) (dropna (read_csv rows))) as [|[i1 r1] rest];
        destruct code, city; split; try discriminate;
        try (intros (_ & H1 & H2); discriminate);
        intros _; repeat split; discriminate.
    + simpl. split; [discriminate|]. intros [H _]. now contradiction H.
Qed.

(** C9. The reference postal code can be part of its own result: when the
    reference resolves to row [i0] and a row [i] with both coordinates
    carries the same postal code at a geodesic distance strictly between
    zero and [radius_km] from the coordinates of row [i0], the search
    returns a series that holds row [i] with that very code.  What leaves a
    row out is its distance, not its code: when the geodesic of the
    reference point to itself is zero, row [i0] is not in the series, and
    row [i] is another row. *)
Theorem distance_search_reference_code_reappears
    (rows : list PostalCodeRecord) (code : string) (R : float)
    (i0 i : nat) (r0 r : PostalCodeRecord) :
  resolved rows (selects (Some code) None) i0 r0 ->
  nth_error rows i = Some r -> complete r -> PostalCode r = code ->
  (0 <? geodesic_km (Latitude r, Longitude r) (Latitude r0, Longitude r0)) = true ->
  (geodesic_km (Latitude r, Longitude r) (Latitude r0, Longitude r0) <? R) = true ->
  exists s,
    find_nearby_postal_codes_by_distance geodesic_km (Some rows) (Some code) None R
      = Found s /\
    In (i, code) s /\ In code (values s) /\
    ((geodesic_km (Latitude r0, Longitude r0) (Latitude r0, Longitude r0) =? 0) = true ->
     ~ In i0 (labels s) /\ i <> i0).
Proof.
  intros Hres Hn Hc Hcode H0 H1. eexists. split; [apply (distance_resolved R Hres)|].
  assert (In (i, code)
    (postal_code_column
       (loc (in_range geodesic_km (coordinates r0) R) (dropna (read_csv rows))))) as Hin.
  { apply (proj2 (in_selected rows (coordinates r0) R i code)). exists r.
    repeat (split; [assumption|]). exact H1. }
  split; [exact Hin|]. split.
  - unfold values. apply in_map_iff. now exists (i, code).
  - intros Hz. apply FloatOrder.eqb_not_lt in Hz. destruct Hz as [_ Hz].
    destruct Hres as (Hn0 & _). split.
    + intros Hlab. apply Frame.in_labels in Hlab. destruct Hlab as [c Hlab].
      apply (proj1 (in_selected rows (coordinates r0) R i0 c)) in Hlab.
      destruct Hlab as (r' & Hn' & _ & _ & Hpos & _).
      assert (r' = r0) by congruence. subst r'.
      change (_calculate_distance geodesic_km r0 (fst (coordinates r0))
                (snd (coordinates r0)))
        with (geodesic_km (Latitude r0, Longitude r0) (Latitude r0, Longitude r0))
        in Hpos.
      congruence.
    + intros ->. assert (r = r0) by congruence. subst r. congruence.
Qed.

End Distance.

(** ** The bounding-box search *)

Section Bounding.

Variable cos : float -> float.

(** Both divisions of [bounding_box] have the same operands, so a box that
    is returned has the four corners of the source's tuple. *)
Lemma bounding_box_found (lat0 lon0 R : float) (bb : float * float * float * float) :
  bounding_box cos (lat0, lon0) R = Found bb ->
  bb = (lat0 - R / 110.574, lon0 - R / (111.32 * cos (radians lat0)),
        lat0 + R / 110.574, lon0 + R / (111.32 * cos (radians lat0))).
Proof.
  unfold bounding_box, py_div. simpl.
  destruct (111.32 * cos (radians lat0) =? 0); simpl; [discriminate|].
  intros H. now inversion H.
Qed.

Lemma nearby_found (rows : list PostalCodeRecord) (code : option string) (R : float)
    (reference_row : DataFrame) (nearby : Series) :
  nearby_in_bounding_box cos (Some rows) code R = Found (reference_row, nearby) ->
  exists i0 r0 bb,
    resolved rows (selects code None) i0 r0 /\
    bounding_box cos (coordinates r0) R = Found bb /\
    reference_row = loc (selects code None) (dropna (read_csv rows)) /\
    nearby = postal_code_column (loc (in_box bb) (dropna (read_csv rows))).
Proof.
  unfold nearby_in_bounding_box. destruct code as [code|]; [|discriminate].
  change (fun r => String.eqb (PostalCode r) code) with (selects (Some code) None).
  destruct (loc (selects (Some code) None) (dropna (read_csv rows)))
    as [|[i0 r0] rest] eqn:E; [discriminate|].
  change (Latitude r0, Longitude r0) with (coordinates r0).
  destruct (bounding_box cos (coordinates r0) R) as [bb| |] eqn:Ebb; try discriminate.
  simpl. intros H. inversion H; subst. exists i0, r0, bb.
  split; [exact (Frame.loc_head_resolved _ _ E)|]. auto.
Qed.

(** Membership in the series selected inside a box. *)
Lemma in_nearby (rows : list PostalCodeRecord) (bb : float * float * float * float)
    (i : nat) (c : string) :
  In (i, c) (postal_code_column (loc (in_box bb) (dropna (read_csv rows)))) <->
  exists r, nth_error rows i = Some r /\ PostalCode r = c /\ complete r /\
            in_box bb r = true.
Proof.
  rewrite Frame.in_postal_code_column. split.
  - intros [r [H E]]. exists r. apply Frame.in_loc in H. destruct H as [H M].
    apply Frame.in_dropna in H. tauto.
  - intros [r (Hn & E & Hc & M)]. exists r. split; [|exact E].
    apply Frame.in_loc. split; [apply Frame.in_dropna; tauto | exact M].
Qed.

(** The labels of the reference rows: every complete row with the code. *)
Lemma in_reference_index (rows : list PostalCodeRecord) (code : string) (i : nat) :
  In i (index (loc (selects (Some code) None) (dropna (read_csv rows)))) <->
  exists r, nth_error rows i = Some r /\ complete r /\ PostalCode r = code.
Proof.
  rewrite Frame.in_index. split.
  - intros [r H]. exists r. apply Frame.in_loc in H. destruct H as [H M].
    apply Frame.in_dropna in H. simpl in M. apply String.eqb_eq in M. tauto.
  - intros [r (Hn & Hc & E)]. exists r. apply Frame.in_loc.
    split; [apply Frame.in_dropna; tauto|]. simpl. now apply String.eqb_eq.
Qed.

(** The selection step succeeds on a resolved reference, unless the divisor
    of the longitude term is zero. *)
Lemma nearby_resolved (rows : list PostalCodeRecord) (code : string) (R : float)
    (i0 : nat) (r0 : PostalCodeRecord) :
  resolved rows (selects (Some code) None) i0 r0 ->
  (111.32 * cos (radians (Latitude r0)) =? 0) = false ->
  exists bb,
    bounding_box cos (coordinates r0) R = Found bb /\
    nearby_in_bounding_box cos (Some rows) (Some code) R =
    Found (loc (selects (Some code) None) (dropna (read_csv rows)),
           postal_code_column (loc (in_box bb) (dropna (read_csv rows)))).
Proof.
  intros Hres Hdiv.
  assert (exists bb, bounding_box cos (coordinates r0) R = Found bb) as [bb Hbb].
  { unfold bounding_box, py_div. simpl. rewrite Hdiv. simpl. eauto. }
  exists bb. split; [exact Hbb|].
  unfold nearby_in_bounding_box.
  change (fun r => String.eqb (PostalCode r) code) with (selects (Some code) None).
  assert (In (i0, r0) (loc (selects (Some code) None) (dropna (read_csv rows)))) as Hin.
  { destruct Hres as (Hn & Hc & Hs & _).
    apply Frame.in_loc. split; [apply Frame.in_dropna; tauto | exact Hs]. }
  destruct (loc (selects (Some code) None) (dropna (read_csv rows)))
    as [|[i1 r1] rest] eqn:E; [destruct Hin|].
  apply Frame.loc_head_resolved in E.
  destruct (Frame.resolved_unique E Hres) as [_ ->].
  change (Latitude r0, Longitude r0) with (coordinates r0).
  now rewrite Hbb.
Qed.

(** C2. Let the postal code resolve to row [i0], at [(lat0, lon0)].  The
    selection step of the bounding-box search returns unless the divisor
    [111.32 cos(radians lat0)] is zero, and whenever it returns, the series
    selected before the reference rows are removed holds exactly the rows
    with both coordinates whose latitude is in
    [[lat0 - R/110.574, lat0 + R/110.574]] and whose longitude is in
    [[lon0 - R/(111.32 cos(radians lat0)), lon0 + R/(111.32 cos(radians
    lat0))]], bounds included. *)
Theorem bounding_selection_inclusive_box
    (rows : list PostalCodeRecord) (code : string) (R : float)
    (i0 : nat) (r0 : PostalCodeRecord) :
  resolved rows (selects (Some code) None) i0 r0 ->
  let lat0 := Latitude r0 in
  let lon0 := Longitude r0 in
  let dlat := R / 110.574 in
  let dlon := R / (111.32 * cos (radians lat0)) in
  ((111.32 * cos (radians lat0) =? 0) = false ->
   exists reference_row nearby,
     nearby_in_bounding_box cos (Some rows) (Some code) R
       = Found (reference_row, nearby)) /\
  forall reference_row nearby,
    nearby_in_bounding_box cos (Some rows) (Some code) R = Found (reference_row, nearby) ->
    forall i c, In (i, c) nearby <->
      exists r, nth_error rows i = Some r /\ PostalCode r = c /\ complete r /\
                (lat0 - dlat <=? Latitude r) = true /\
                (Latitude r <=? lat0 + dlat) = true /\
                (lon0 - dlon <=? Longitude r) = true /\
                (Longitude r <=? lon0 + dlon) = true.
Proof.
  intros Hres lat0 lon0 dlat dlon. split.
  - intros Hdiv. destruct (nearby_resolved R Hres Hdiv) as (bb & _ & Hsel). eauto.
  - intros reference_row nearby H i c. apply nearby_found in H.
    destruct H as (i1 & r1 & bb & Hres1 & Hbb & _ & ->).
    destruct (Frame.resolved_unique Hres1 Hres) as [_ ->].
    apply bounding_box_found in Hbb. rewrite in_nearby. subst bb.
    unfold in_box. fold lat0 lon0 dlat dlon.
    split; intros (r & Hn & Hc & Hcompl & M); exists r;
      repeat (split; [assumption|]).
    + rewrite !andb_true_iff in M. tauto.
    + rewrite !andb_true_iff. tauto.
Qed.

(** What [drop] leaves, when it succeeds. *)
Lemma drop_found (ls : list nat) (s s' : Series) :
  drop ls s = Found s' ->
  (forall l, In l ls -> In l (labels s)) /\
  (forall i c, In (i, c) s' <-> In (i, c) s /\ ~ In i ls).
Proof.
  unfold drop.
  destruct (filter (fun l => negb (has_label l (labels s))) ls) eqn:E; [|discriminate].
  intros H. inversion H; subst; clear H. split.
  - intros l Hl. destruct (has_label l (labels s)) eqn:Hh.
    + now apply Frame.has_label_spec.
    + assert (In l (filter (fun l => negb (has_label l (labels s))) ls)) as Hin
        by (apply filter_In; rewrite Hh; auto).
      rewrite E in Hin. destruct Hin.
  - intros i c. rewrite filter_In. simpl. rewrite negb_true_iff.
    rewrite <- Frame.has_label_spec. destruct (has_label i ls); intuition congruence.
Qed.

(** What [drop] raises, when a label is absent. *)
Lemma drop_missing (ls : list nat) (s : Series) (l : nat) :
  In l ls -> ~ In l (labels s) ->
  exists missing, drop ls s = Raised (KeyError missing) /\ In l missing.
Proof.
  intros Hl Hn. unfold drop.
  assert (In l (filter (fun l => negb (has_label l (labels s))) ls)) as Hin.
  { apply filter_In. split; [exact Hl|]. apply negb_true_iff.
    destruct (has_label l (labels s)) eqn:E; [|reflexivity].
    apply Frame.has_label_spec in E. contradiction. }
  destruct (filter (fun l => negb (has_label l (labels s))) ls) as [|m ms];
    [destruct Hin|].
  now exists (m :: ms).
Qed.

(** The result of the bounding-box search, row by row. *)
Lemma bounding_found (rows : list PostalCodeRecord) (code : option string) (R : float)
    (s : Series) :
  find_nearby_postal_codes_by_bounding cos (Some rows) code R = Found s ->
  exists i0 r0 bb ref,
    code = Some ref /\
    resolved rows (selects code None) i0 r0 /\
    bounding_box cos (coordinates r0) R = Found bb /\
    in_box bb r0 = true /\
    forall i c, In (i, c) s <->
      exists r, nth_error rows i = Some r /\ PostalCode r = c /\ complete r /\
                in_box bb r = true /\ c <> ref.
Proof.
  unfold find_nearby_postal_codes_by_bounding.
  destruct (nearby_in_bounding_box cos (Some rows) code R) as [[rr nearby]| |] eqn:E;
    try discriminate.
  simpl. intros Hdrop. apply nearby_found in E.
  destruct E as (i0 & r0 & bb & Hres & Hbb & -> & ->).
  destruct code as [ref|]; [|destruct Hres as (_ & _ & Hs & _); discriminate].
  apply drop_found in Hdrop. destruct Hdrop as [Hall Hmem].
  exists i0, r0, bb, ref. repeat (split; [auto; fail|]). split.
  - assert (In i0 (index (loc (selects (Some ref) None) (dropna (read_csv rows))))) as Hi0.
    { apply in_reference_index. exists r0. destruct Hres as (Hn & Hc & Hs & _).
      simpl in Hs. apply String.eqb_eq in Hs. tauto. }
    apply Hall, Frame.in_labels in Hi0. destruct Hi0 as [c Hin].
    apply in_nearby in Hin. destruct Hin as (r & Hn & _ & _ & M).
    destruct Hres as (Hn0 & _). congruence.
  - intros i c. rewrite Hmem, in_nearby, in_reference_index. split.
    + intros [(r & Hn & Hc & Hcompl & M) Hnot]. exists r.
      repeat (split; [assumption|]). intros ->. apply Hnot. now exists r.
    + intros (r & Hn & Hc & Hcompl & M & Hne). split; [exists r; tauto|].
      intros (r' & Hn' & _ & Hc'). assert (r' = r) by congruence. subst r'. congruence.
Qed.

(** C3, as the code has it.  When the bounding-box search returns a series,
    the rows removed from the selection are all the rows that carry the
    reference postal code, not the first one only: no such row is in the
    result.  Every other row with both coordinates inside the box is in the
    result under its own code, and this covers a row at exactly the
    coordinates of the reference. *)
Theorem bounding_search_removes_reference_code
    (rows : list PostalCodeRecord) (code : string) (R : float) (s : Series) :
  find_nearby_postal_codes_by_bounding cos (Some rows) (Some code) R = Found s ->
  exists i0 r0 bb,
    resolved rows (selects (Some code) None) i0 r0 /\
    bounding_box cos (coordinates r0) R = Found bb /\
    (forall i r, nth_error rows i = Some r -> PostalCode r = code ->
                 ~ In i (labels s)) /\
    (forall i r, nth_error rows i = Some r -> complete r -> in_box bb r = true ->
                 PostalCode r <> code -> In (i, PostalCode r) s) /\
    (forall i r, nth_error rows i = Some r -> coordinates r = coordinates r0 ->
                 PostalCode r <> code -> In (i, PostalCode r) s).
Proof.
  intros H. apply bounding_found in H.
  destruct H as (i0 & r0 & bb & ref & Eref & Hres & Hbb & Hin0 & Hmem).
  inversion Eref; subst ref; clear Eref.
  exists i0, r0, bb. repeat (split; [assumption|]). split; [|split].
  - intros i r Hn Hc Hin. apply Frame.in_labels in Hin. destruct Hin as [c Hin].
    apply Hmem in Hin. destruct Hin as (r' & Hn' & Hc' & _ & _ & Hne).
    assert (r' = r) by congruence. subst r'. congruence.
  - intros i r Hn Hcompl M Hne. apply Hmem. exists r. tauto.
  - intros i r Hn Hco Hne. apply Hmem. exists r.
    destruct Hres as (_ & [Hlat Hlon] & _).
    unfold coordinates in Hco. inversion Hco as [[Elat Elon]].
    assert (complete r) as Hcompl by (unfold complete; now rewrite Elat, Elon).
    assert (in_box bb r = true) as M.
    { destruct bb as [[[south west] north] east]. unfold in_box in *.
      now rewrite Elat, Elon. }
    tauto.
Qed.

End Bounding.

(** ** Both searches *)

Section Searches.

Variable cos : float -> float.
Variable geodesic_km : float * float -> float * float -> float.

Lemma dropna_nothing_left (rows : list PostalCodeRecord) :
  (forall r, In r rows -> ~ complete r) -> dropna (read_csv rows) = [].
Proof.
  intros H. unfold dropna. apply Frame.filter_none. intros [i r] Hin.
  apply Frame.in_read_csv, nth_error_In in Hin. simpl.
  destruct (negb (isna (Longitude r) || isna (Latitude r))) eqn:E; [|reflexivity].
  apply Frame.completeb_spec in E. now apply H in E.
Qed.

(** C5, as the code has it.  On a file in which no row has both coordinates
    neither search has a condition of its own for that: each prints the
    diagnostic of the reference lookup, "Reference place not found" when a
    selector is given and "No reference place was provided" when none is,
    and returns no series. *)
Theorem no_coordinates_reference_not_found
    (rows : list PostalCodeRecord) (code city : option string) (R : float) :
  (forall r, In r rows -> ~ complete r) ->
  find_nearby_postal_codes_by_distance geodesic_km (Some rows) code city R =
    NoResult (match code, city with
              | None, None => NoReferenceProvided
              | _, _ => ReferenceNotFound
              end) /\
  find_nearby_postal_codes_by_bounding cos (Some rows) code R =
    NoResult (match code with
              | None => NoReferenceProvided
              | Some _ => ReferenceNotFound
              end).
Proof.
  intros H. apply dropna_nothing_left in H.
  unfold find_nearby_postal_codes_by_distance, find_nearby_postal_codes_by_bounding,
    nearby_in_bounding_box.
  rewrite H. destruct code, city; split; reflexivity.
Qed.

(** C8. A row that lacks its latitude or its longitude is in the series
    returned by neither search, whatever its postal code. *)
Theorem missing_coordinates_never_returned
    (rows : list PostalCodeRecord) (code city : option string) (R : float)
    (s : Series) (i : nat) (r : PostalCodeRecord) :
  find_nearby_postal_codes_by_distance geodesic_km (Some rows) code city R = Found s \/
  find_nearby_postal_codes_by_bounding cos (Some rows) code R = Found s ->
  nth_error rows i = Some r ->
  isna (Latitude r) = true \/ isna (Longitude r) = true ->
  ~ In i (labels s).
Proof.
  intros H Hn Hmiss Hin. apply Frame.in_labels in Hin. destruct Hin as [c Hin].
  assert (exists r', nth_error rows i = Some r' /\ complete r') as (r' & Hn' & Hc).
  { destruct H as [H|H].
    - apply distance_found in H. destruct H as (i0 & r0 & _ & ->).
      apply in_selected in Hin. destruct Hin as (r' & ? & _ & ? & _). now exists r'.
    - apply bounding_found in H. destruct H as (i0 & r0 & bb & ref & _ & _ & _ & _ & Hmem).
      apply Hmem in Hin. destruct Hin as (r' & ? & _ & ? & _). now exists r'. }
  assert (r' = r) by congruence. subst r'. destruct Hc as [Hlat Hlon].
  destruct Hmiss; congruence.
Qed.

End Searches.

(** ** The searches on sample files *)

Section Runs.

Local Open Scope string_scope.
Local Open Scope float_scope.

(** C10. The removal of the reference rows does fail.  On [Sample.far_twins]
    the reference code "10115" is carried by row 0 (Berlin) and by row 1
    (Munich); with the radius 50 and the latitude 52.52 of row 0, row 1 is
    south of the box whatever the cosine, so for every cosine function the
    call ends in an exception: [KeyError] with label 1 among the missing
    ones (or [ZeroDivisionError], should the cosine be zero). *)
Theorem bounding_search_far_duplicate_raises (cos : float -> float) :
  find_nearby_postal_codes_by_bounding cos (Some Sample.far_twins) (Some "10115") 50
    = Raised ZeroDivisionError \/
  exists missing,
    find_nearby_postal_codes_by_bounding cos (Some Sample.far_twins) (Some "10115") 50
      = Raised (KeyError missing) /\ In 1%nat missing.
Proof.
  unfold find_nearby_postal_codes_by_bounding, nearby_in_bounding_box.
  change (dropna (read_csv Sample.far_twins))
    with [(0%nat, mkRecord "10115" "Berlin" 52.5200 13.4050);
          (1%nat, mkRecord "10115" "Munich" 48.1351 11.5820)].
  change (loc (fun r => String.eqb (PostalCode r) "10115") _)
    with [(0%nat, mkRecord "10115" "Berlin" 52.5200 13.4050);
          (1%nat, mkRecord "10115" "Munich" 48.1351 11.5820)].
  cbn [Latitude Longitude].
  destruct (bounding_box cos (52.5200, 13.4050) 50) as [bb|d|e] eqn:E.
  - right. apply bounding_box_found in E. cbn [bind fst snd].
    apply drop_missing; [simpl; tauto|].
    intros Hin. apply Frame.in_labels in Hin. destruct Hin as [c Hin].
    apply Frame.in_postal_code_column in Hin. destruct Hin as [r [Hin _]].
    apply Frame.in_loc in Hin. destruct Hin as [Hin M].
    destruct Hin as [Hin|[Hin|[]]]; inversion Hin; subst r.
    subst bb. discriminate M.
  - unfold bounding_box, py_div in E. simpl in E.
    destruct (111.32 * cos (radians 52.5200) =? 0); discriminate E.
  - left. unfold bounding_box, py_div in E. simpl in E.
    destruct (111.32 * cos (radians 52.5200) =? 0); [|discriminate E].
    simpl in E. inversion E. reflexivity.
Qed.

(** With the sample cosine the missing label is exactly 1. *)
Example bounding_search_far_twins :
  find_nearby_postal_codes_by_bounding Sample.cos (Some Sample.far_twins)
    (Some "10115") 50 = Raised (KeyError [1%nat]).
Proof. reflexivity. Qed.

(** A negative radius turns the box inside out: nothing is selected, and
    the removal of the reference row raises. *)
Example bounding_search_negative_radius :
  find_nearby_postal_codes_by_bounding Sample.cos (Some Sample.germany)
    (Some "10115") (-5) = Raised (KeyError [0%nat]).
Proof. reflexivity. Qed.

(** The scenarios of the specification: Hamburg is within 300 km of Berlin,
    Munich is not; both are within 600 km; an absent code is not found. *)
Example germany_300 :
  find_nearby_postal_codes_by_distance Sample.geodesic_km (Some Sample.germany)
    (Some "10115") None 300 = Found [(1%nat, "20095")].
Proof. reflexivity. Qed.

Example germany_600 :
  find_nearby_postal_codes_by_distance Sample.geodesic_km (Some Sample.germany)
    (Some "10115") None 600 = Found [(1%nat, "20095"); (2%nat, "80331")].
Proof. reflexivity. Qed.

Example germany_absent_code :
  find_nearby_postal_codes_by_distance Sample.geodesic_km (Some Sample.germany)
    (Some "99999") None 300 = NoResult ReferenceNotFound.
Proof. reflexivity. Qed.

Example germany_no_selector :
  find_nearby_postal_codes_by_distance Sample.geodesic_km (Some Sample.germany)
    None None 300 = NoResult NoReferenceProvided.
Proof. reflexivity. Qed.

(** *** The theorems at sample inputs *)

Lemma germany_resolved :
  resolved Sample.germany (selects (Some "10115") None) 0
    (mkRecord "10115" "Berlin" 52.5200 13.4050).
Proof.
  split; [reflexivity|]. split; [split; reflexivity|]. split; [reflexivity|].
  intros j r Hj. inversion Hj.
Defined.

Lemma berlin_twins_resolved :
  resolved Sample.berlin_twins (selects (Some "10115") None) 0
    (mkRecord "10115" "Berlin" 52.5200 13.4050).
Proof.
  split; [reflexivity|]. split; [split; reflexivity|]. split; [reflexivity|].
  intros j r Hj. inversion Hj.
Defined.

Lemma distance_search_open_interval_witness :
  find_nearby_postal_codes_by_distance Sample.geodesic_km (Some Sample.germany)
    (Some "10115") None 300 = Found [(1%nat, "20095")] /\
  (forall c, In c ["20095"] <->
     exists r, In r Sample.germany /\ PostalCode r = c /\ complete r /\
       (0 <? Sample.geodesic_km (Latitude r, Longitude r) (52.5200, 13.4050)) = true /\
       (Sample.geodesic_km (Latitude r, Longitude r) (52.5200, 13.4050) <? 300) = true) /\
  ~ In 0%nat (labels [(1%nat, "20095")]).
Proof.
  destruct (@distance_search_open_interval Sample.geodesic_km Sample.germany
              (Some "10115") None 300 0 _ germany_resolved)
    as (s & Hs & _ & Hvalues & _ & _ & Hself).
  assert (s = [(1%nat, "20095")]) as -> by (inversion Hs; reflexivity).
  split; [reflexivity|]. split; [exact Hvalues|].
  exact (Hself eq_refl 0%nat (mkRecord "10115" "Berlin" 52.5200 13.4050) eq_refl eq_refl).
Defined.

Lemma bounding_selection_inclusive_box_witness :
  nearby_in_bounding_box Sample.cos (Some Sample.germany) (Some "10115") 300
    = Found ([(0%nat, mkRecord "10115" "Berlin" 52.5200 13.4050)],
             [(0%nat, "10115"); (1%nat, "20095")]) /\
  forall i c, In (i, c) [(0%nat, "10115"); (1%nat, "20095")] <->
    exists r, nth_error Sample.germany i = Some r /\ PostalCode r = c /\ complete r /\
      (52.5200 - 300 / 110.574 <=? Latitude r) = true /\
      (Latitude r <=? 52.5200 + 300 / 110.574) = true /\
      (13.4050 - 300 / (111.32 * Sample.cos (radians 52.5200)) <=? Longitude r)
        = true /\
      (Longitude r <=? 13.4050 + 300 / (111.32 * Sample.cos (radians 52.5200)))
        = true.
Proof.
  split; [reflexivity|].
  exact (proj2 (@bounding_selection_inclusive_box Sample.cos Sample.germany "10115" 300
                  0 _ germany_resolved) _ _ eq_refl).
Defined.

Lemma bounding_search_removes_reference_code_witness :
  exists i0 r0 bb,
    resolved Sample.berlin_twins (selects (Some "10115") None) i0 r0 /\
    bounding_box Sample.cos (coordinates r0) 50 = Found bb /\
    (forall i r, nth_error Sample.berlin_twins i = Some r -> PostalCode r = "10115" ->
                 ~ In i (labels [(2%nat, "10117")])) /\
    (forall i r, nth_error Sample.berlin_twins i = Some r -> complete r ->
                 in_box bb r = true -> PostalCode r <> "10115" ->
                 In (i, PostalCode r) [(2%nat, "10117")]) /\
    (forall i r, nth_error Sample.berlin_twins i = Some r ->
                 coordinates r = coordinates r0 -> PostalCode r <> "10115" ->
                 In (i, PostalCode r) [(2%nat, "10117")]).
Proof.
  exact (@bounding_search_removes_reference_code Sample.cos Sample.berlin_twins
           "10115" 50 [(2%nat, "10117")] eq_refl).
Defined.

Lemma distance_search_monotone_witness :
  exists s2,
    find_nearby_postal_codes_by_distance Sample.geodesic_km (Some Sample.germany)
      (Some "10115") None 600 = Found s2 /\
    incl [(1%nat, "20095")] s2 /\ incl (values [(1%nat, "20095")]) (values s2).
Proof.
  exact (@distance_search_monotone Sample.geodesic_km Sample.germany (Some "10115") None
           300 600 [(1%nat, "20095")] eq_refl eq_refl).
Defined.

Lemma not_geocoded_incomplete (r : PostalCodeRecord) :
  In r Sample.not_geocoded -> ~ complete r.
Proof.
  intros [<-|[<-|[]]] [Hlat Hlon]; discriminate.
Defined.

Lemma no_coordinates_reference_not_found_witness :
  find_nearby_postal_codes_by_distance Sample.geodesic_km (Some Sample.not_geocoded)
    (Some "10115") None 50 = NoResult ReferenceNotFound /\
  find_nearby_postal_codes_by_bounding Sample.cos (Some Sample.not_geocoded)
    (Some "10115") 50 = NoResult ReferenceNotFound.
Proof.
  exact (@no_coordinates_reference_not_found Sample.cos Sample.geodesic_km
           Sample.not_geocoded (Some "10115") None 50 not_geocoded_incomplete).
Defined.

Lemma distance_search_nonpositive_radius_witness :
  find_nearby_postal_codes_by_distance Sample.geodesic_km (Some Sample.germany)
    (Some "10115") None (-5) =
  (_ <- find_nearby_postal_codes_by_distance Sample.geodesic_km (Some Sample.germany)
          (Some "10115") None 300 ;;
   Found []).
Proof.
  exact (@distance_search_nonpositive_radius Sample.geodesic_km (Some Sample.germany)
           (Some "10115") None (-5) 300 eq_refl).
Defined.

Lemma missing_coordinates_never_returned_witness :
  find_nearby_postal_codes_by_distance Sample.geodesic_km (Some Sample.partly_geocoded)
    (Some "10115") None 300 = Found [(1%nat, "20095")] /\
  isna (Latitude (mkRecord "20099" "Hamburg" nan 10.0000)) = true /\
  ~ In 3%nat (labels [(1%nat, "20095")]).
Proof.
  split; [reflexivity|]. split; [reflexivity|].
  exact (@missing_coordinates_never_returned Sample.cos Sample.geodesic_km
           Sample.partly_geocoded (Some "10115") None 300 [(1%nat, "20095")] 3
           (mkRecord "20099" "Hamburg" nan 10.0000)
           (or_introl eq_refl) eq_refl (or_introl eq_refl)).
Defined.

Lemma distance_search_reference_code_reappears_witness :
  find_nearby_postal_codes_by_distance Sample.geodesic_km (Some Sample.berlin_twins)
    (Some "10115") None 50 = Found [(1%nat, "10115")] /\
  In (1%nat, "10115") [(1%nat, "10115")] /\
  In "10115" (values [(1%nat, "10115")]) /\
  ~ In 0%nat (labels [(1%nat, "10115")]).
Proof.
  destruct (@distance_search_reference_code_reappears Sample.geodesic_km
              Sample.berlin_twins "10115" 50 0 1
              (mkRecord "10115" "Berlin" 52.5200 13.4050)
              (mkRecord "10115" "Berlin Mitte" 52.5300 13.3900)
              berlin_twins_resolved eq_refl (conj eq_refl eq_refl) eq_refl eq_refl eq_refl)
    as (s & Hs & Hin & Hval & Hself).
  assert (s = [(1%nat, "10115")]) as -> by (inversion Hs; reflexivity).
  split; [reflexivity|]. split; [exact Hin|]. split; [exact Hval|].
  exact (proj1 (Hself eq_refl)).
Defined.

(** *** Where the specification and the code part *)

(** C3. Row 1 of [Sample.berlin_twins] is another record than the resolved
    reference (row 0), it lies inside the box, and it carries the reference
    code: it is not in the result, which holds row 2 only. *)
Lemma bounding_search_same_code_removed :
  exists bb,
    bounding_box Sample.cos (52.5200, 13.4050) 50 = Found bb /\
    in_box bb (mkRecord "10115" "Berlin Mitte" 52.5300 13.3900) = true /\
    find_nearby_postal_codes_by_bounding Sample.cos (Some Sample.berlin_twins)
      (Some "10115") 50 = Found [(2%nat, "10117")].
Proof. eexists. split; [reflexivity|]. split; reflexivity. Qed.

(** C5. No row of [Sample.not_geocoded] has both coordinates, and both
    searches report that the reference place was not found. *)
Lemma no_coordinates_says_reference_not_found :
  find_nearby_postal_codes_by_distance Sample.geodesic_km (Some Sample.not_geocoded)
    (Some "10115") None 50 = NoResult ReferenceNotFound /\
  find_nearby_postal_codes_by_bounding Sample.cos (Some Sample.not_geocoded)
    (Some "10115") 50 = NoResult ReferenceNotFound.
Proof. split; reflexivity. Qed.

(** C6. With the radius -5 and with the radius 0 the exact-distance search
    returns a series, the empty one; so does the bounding-box search with
    the radius 0. *)
Lemma nonpositive_radius_returns_empty_series :
  find_nearby_postal_codes_by_distance Sample.geodesic_km (Some Sample.germany)
    (Some "10115") None (-5) = Found [] /\
  find_nearby_postal_codes_by_distance Sample.geodesic_km (Some Sample.germany)
    (Some "10115") None 0 = Found [] /\
  find_nearby_postal_codes_by_bounding Sample.cos (Some Sample.germany)
    (Some "10115") 0 = Found [].
Proof. repeat split; reflexivity. Qed.

(** C7. With both a postal code and a city the search returns a series, the
    one for the postal code. *)
Lemma both_selectors_return_a_series :
  find_nearby_postal_codes_by_distance Sample.geodesic_km (Some Sample.germany)
    (Some "10115") (Some "Hamburg") 300 = Found [(1%nat, "20095")].
Proof. reflexivity. Qed.

End Runs.

(** ** Outcomes of the two searches *)

Lemma loc_empty (rows : list PostalCodeRecord) (sel : PostalCodeRecord -> bool) :
  loc sel (dropna (read_csv rows)) = [] <->
  forall r, In r rows -> complete r -> sel r = false.
Proof.
  split.
  - intros E r Hin Hc. apply In_nth_error in Hin. destruct Hin as [i Hn].
    destruct (sel r) eqn:Hs; [|reflexivity].
    assert (In (i, r) (loc sel (dropna (read_csv rows)))) as H
      by (apply Frame.in_loc; split; [apply Frame.in_dropna; tauto | exact Hs]).
    rewrite E in H. destruct H.
  - intros H. unfold loc. apply Frame.filter_none. intros [i r] Hin.
    apply Frame.in_dropna in Hin. destruct Hin as [Hn Hc]. simpl.
    apply H; [eapply nth_error_In; eassumption | exact Hc].
Qed.

Lemma drop_outcome (ls : list nat) (s : Series) :
  (exists s', drop ls s = Found s') \/ (exists missing, drop ls s = Raised (KeyError missing)).
Proof.
  unfold drop. destruct (filter _ ls); eauto.
Qed.

Lemma index_read_csv (rows : list PostalCodeRecord) :
  index (read_csv rows) = seq 0 (List.length rows).
Proof.
  unfold index, read_csv. generalize 0%nat as k.
  induction rows as [|r rows IH]; intros k; simpl; [reflexivity|]. now rewrite IH.
Qed.

Lemma seq_sorted (n k : nat) : StronglySorted lt (seq k n).
Proof.
  revert k; induction n as [|n IH]; intros k; simpl; constructor; [apply IH|].
  apply Forall_forall. intros x Hx. apply in_seq in Hx. lia.
Qed.

Lemma filter_sorted (A : Type) (f : nat * A -> bool) (l : list (nat * A)) :
  StronglySorted lt (map fst l) -> StronglySorted lt (map fst (filter f l)).
Proof.
  induction l as [|x l IH]; simpl; intros H; [constructor|].
  apply StronglySorted_inv in H. destruct H as [Hl Hx].
  destruct (f x); simpl; [|now apply IH]. constructor; [now apply IH|].
  rewrite Forall_forall in *. intros y Hy. apply Hx.
  apply in_map_iff in Hy. destruct Hy as [z [<- Hz]]. apply filter_In in Hz.
  apply in_map. tauto.
Qed.

Lemma labels_postal_code_column (df : DataFrame) : labels (postal_code_column df) = index df.
Proof. unfold labels, postal_code_column, index. rewrite map_map. reflexivity. Qed.

Lemma selection_sorted (rows : list PostalCodeRecord) (mask : PostalCodeRecord -> bool) :
  StronglySorted lt (labels (postal_code_column (loc mask (dropna (read_csv rows))))).
Proof.
  rewrite labels_postal_code_column. unfold index, loc, dropna.
  do 2 apply filter_sorted. fold (index (read_csv rows)).
  rewrite index_read_csv. apply seq_sorted.
Qed.

Lemma sorted_lt_NoDup (l : list nat) : StronglySorted lt l -> NoDup l.
Proof.
  induction 1 as [|x l Hl IH Hx]; constructor; [|exact IH].
  intros Hin. rewrite Forall_forall in Hx. apply Hx in Hin. lia.
Qed.

(** The records of a frame, without their labels. *)
Lemma records_filter_combine (A B : Type) (f : B -> bool) (l : list B) :
  forall ks : list A, List.length ks = List.length l ->
  map snd (filter (fun ir => f (snd ir)) (combine ks l)) = filter f l.
Proof.
  induction l as [|x l IH]; intros [|k ks] Hlen; simpl in *; try reflexivity;
    try discriminate.
  destruct (f x); simpl; rewrite IH by lia; reflexivity.
Qed.

Lemma records_dropna (rows : list PostalCodeRecord) :
  map snd (dropna (read_csv rows)) = filter has_coordinates rows.
Proof.
  unfold dropna, read_csv.
  apply (records_filter_combine has_coordinates). apply length_seq.
Qed.

Lemma records_loc (mask : PostalCodeRecord -> bool) (df : DataFrame) :
  map snd (loc mask df) = filter mask (map snd df).
Proof.
  unfold loc. induction df as [|[i r] df IH]; simpl; [reflexivity|].
  destruct (mask r); simpl; now rewrite IH.
Qed.

Lemma values_postal_code_column (df : DataFrame) :
  values (postal_code_column df) = map PostalCode (map snd df).
Proof. unfold values, postal_code_column. now rewrite !map_map. Qed.

Lemma has_coordinates_twice (rows : list PostalCodeRecord) :
  filter has_coordinates (filter has_coordinates rows) = filter has_coordinates rows.
Proof.
  rewrite Frame.filter_filter. apply filter_ext. intros r. now destruct (has_coordinates r).
Qed.

(** [drop] of the rows under one mask from the rows under another, read on
    the records alone. *)
Lemma drop_by_records (rows : list PostalCodeRecord) (sel m : PostalCodeRecord -> bool) :
  let df := dropna (read_csv rows) in
  let inside := forall r, In r (map snd df) -> sel r = true -> m r = true in
  (exists s,
     drop (index (loc sel df)) (postal_code_column (loc m df)) = Found s /\
     values s = map PostalCode (filter (fun r => m r && negb (sel r)) (map snd df)) /\
     inside) \/
  (exists missing,
     drop (index (loc sel df)) (postal_code_column (loc m df)) = Raised (KeyError missing) /\
     ~ inside).
Proof.
  intros df inside. unfold drop.
  set (ls := index (loc sel df)). set (nearby := postal_code_column (loc m df)).
  assert (forall i r, In (i, r) df -> has_label i ls = sel r) as Hls.
  { intros i r Hin. destruct (sel r) eqn:Hs.
    - apply Frame.has_label_spec, Frame.in_index. exists r. now apply Frame.in_loc.
    - destruct (has_label i ls) eqn:Hl; [|reflexivity].
      apply Frame.has_label_spec, Frame.in_index in Hl. destruct Hl as [r' Hr'].
      apply Frame.in_loc in Hr'. destruct Hr' as [Hr' Hs'].
      apply Frame.in_dropna in Hin, Hr'. assert (r' = r) by (destruct Hin, Hr'; congruence).
      subst r'. congruence. }
  assert (forall i r, In (i, r) df -> has_label i (labels nearby) = m r) as Hnear.
  { intros i r Hin. unfold nearby. rewrite labels_postal_code_column.
    destruct (m r) eqn:Hm.
    - apply Frame.has_label_spec, Frame.in_index. exists r. now apply Frame.in_loc.
    - destruct (has_label i (index (loc m df))) eqn:Hl; [|reflexivity].
      apply Frame.has_label_spec, Frame.in_index in Hl. destruct Hl as [r' Hr'].
      apply Frame.in_loc in Hr'. destruct Hr' as [Hr' Hm'].
      apply Frame.in_dropna in Hin, Hr'. assert (r' = r) by (destruct Hin, Hr'; congruence).
      subst r'. congruence. }
  destruct (filter (fun l => negb (has_label l (labels nearby))) ls) as [|x xs] eqn:E.
  - left. eexists. split; [reflexivity|]. split.
    + unfold nearby, postal_code_column, values, loc.
      rewrite filter_map_swap.
      rewrite Frame.filter_filter, !map_map. simpl.
      assert (filter (fun x => m (snd x) && negb (has_label (fst x) ls)) df =
              filter (fun x => (fun r => m r && negb (sel r)) (snd x)) df) as ->.
      { apply filter_ext_in. intros [i r] Hin. simpl. now rewrite (Hls i r Hin). }
      fold (loc (fun r => m r && negb (sel r)) df). rewrite <- records_loc.
      now rewrite map_map.
    + intros r Hin Hs. apply in_map_iff in Hin. destruct Hin as [[i r'] [Er Hin]].
      simpl in Er. subst r'. destruct (m r) eqn:Hm; [reflexivity|].
      assert (In i (filter (fun l => negb (has_label l (labels nearby))) ls)) as Hi.
      { apply filter_In. split.
        - apply Frame.in_index. exists r. now apply Frame.in_loc.
        - now rewrite (Hnear i r Hin), Hm. }
      rewrite E in Hi. destruct Hi.
  - right. eexists. split; [reflexivity|]. intros Hinside.
    assert (In x (filter (fun l => negb (has_label l (labels nearby))) ls)) as Hx
      by (rewrite E; now left).
    apply filter_In in Hx. destruct Hx as [Hx Hl].
    apply Frame.in_index in Hx. destruct Hx as [r Hr]. apply Frame.in_loc in Hr.
    destruct Hr as [Hr Hs]. rewrite (Hnear x r Hr) in Hl.
    assert (m r = true) as Hm by (apply Hinside; [apply in_map_iff; now exists (x, r) | exact Hs]).
    rewrite Hm in Hl. discriminate.
Qed.

Section DistanceOutcomes.

Variable geodesic_km : float * float -> float * float -> float.

(** X1. How the exact-distance search fails on a file that exists: it
    reports that no reference was provided exactly when neither selector is
    given, and that the reference was not found exactly when a selector is
    given and no row with both coordinates satisfies it. *)
Theorem distance_search_diagnostics
    (rows : list PostalCodeRecord) (code city : option string) (R : float) :
  (find_nearby_postal_codes_by_distance geodesic_km (Some rows) code city R
     = NoResult NoReferenceProvided <-> code = None /\ city = None) /\
  (find_nearby_postal_codes_by_distance geodesic_km (Some rows) code city R
     = NoResult ReferenceNotFound <->
   (code <> None \/ city <> None) /\
   forall r, In r rows -> complete r -> selects code city r = false).
Proof.
  rewrite distance_outcome.
  destruct (loc (selects code city) (dropna (read_csv rows))) as [|[i0 r0] rest] eqn:E.
  - pose proof (proj1 (loc_empty rows (selects code city)) E) as Hnone.
    destruct code, city; (split; (split; [intros H | intros [H1 H2]]));
      try discriminate; try reflexivity; try tauto;
      try (destruct H1; congruence);
      try (split; [|exact Hnone]; first [left; discriminate | right; discriminate]).
  - assert (~ forall r, In r rows -> complete r -> selects code city r = false) as Hsome.
    { intros H. apply loc_empty in H. congruence. }
    destruct code, city; (split; (split; [intros H | intros [H1 H2]]));
      try discriminate; try reflexivity; try tauto;
      try (destruct H1; congruence).
Qed.

(** X5. Rows without coordinates have no part in the exact-distance search:
    deleting them from the file changes neither whether the search returns
    a series, nor the diagnostic, nor the postal codes returned and their
    order (only the labels shift). *)
Theorem distance_search_ignores_incomplete_rows
    (rows : list PostalCodeRecord) (code city : option string) (R : float) :
  (s <- find_nearby_postal_codes_by_distance geodesic_km (Some rows) code city R ;;
   Found (values s)) =
  (s <- find_nearby_postal_codes_by_distance geodesic_km
          (Some (filter has_coordinates rows)) code city R ;;
   Found (values s)).
Proof.
  rewrite !distance_outcome.
  set (df := dropna (read_csv rows)).
  set (df' := dropna (read_csv (filter has_coordinates rows))).
  assert (map snd df' = map snd df) as Hrec
    by (unfold df, df'; now rewrite !records_dropna, has_coordinates_twice).
  assert (map snd (loc (selects code city) df') = map snd (loc (selects code city) df))
    as Hsel by (now rewrite !records_loc, Hrec).
  assert (forall ref,
    values (postal_code_column (loc (in_range geodesic_km ref R) df')) =
    values (postal_code_column (loc (in_range geodesic_km ref R) df))) as Hval
    by (intros ref; now rewrite !values_postal_code_column, !records_loc, Hrec).
  destruct (loc (selects code city) df) as [|[i r] rest];
    destruct (loc (selects code city) df') as [|[i' r'] rest'];
    simpl in Hsel; try discriminate; destruct code, city; try reflexivity;
    inversion Hsel; subst r'; simpl; now rewrite Hval.
Qed.

End DistanceOutcomes.

Section BoundingOutcomes.

Variable cos : float -> float.

Lemma bounding_box_outcome (ref : float * float) (R : float) :
  (exists bb, bounding_box cos ref R = Found bb) \/
  bounding_box cos ref R = Raised ZeroDivisionError.
Proof.
  unfold bounding_box, py_div.
  destruct (111.32 * cos (radians (fst ref)) =? 0); simpl; eauto.
Qed.

(** The selection step on a resolved reference whose box is computed. *)
Lemma nearby_resolved_box (rows : list PostalCodeRecord) (code : string) (R : float)
    (i0 : nat) (r0 : PostalCodeRecord) (bb : float * float * float * float) :
  resolved rows (selects (Some code) None) i0 r0 ->
  bounding_box cos (coordinates r0) R = Found bb ->
  nearby_in_bounding_box cos (Some rows) (Some code) R =
  Found (loc (selects (Some code) None) (dropna (read_csv rows)),
         postal_code_column (loc (in_box bb) (dropna (read_csv rows)))).
Proof.
  intros Hres Hbb. unfold nearby_in_bounding_box.
  change (fun r => String.eqb (PostalCode r) code) with (selects (Some code) None).
  assert (In (i0, r0) (loc (selects (Some code) None) (dropna (read_csv rows)))) as Hin.
  { destruct Hres as (Hn & Hc & Hs & _).
    apply Frame.in_loc. split; [apply Frame.in_dropna; tauto | exact Hs]. }
  destruct (loc (selects (Some code) None) (dropna (read_csv rows)))
    as [|[i1 r1] rest] eqn:E; [destruct Hin|].
  apply Frame.loc_head_resolved in E.
  destruct (Frame.resolved_unique E Hres) as [_ ->].
  change (Latitude r0, Longitude r0) with (coordinates r0).
  now rewrite Hbb.
Qed.

(** X3. When the reference resolves and its box [bb] is computed, the
    bounding-box search returns a series if every row with both coordinates
    that carries the reference code lies inside the box; otherwise it raises
    [KeyError], and the labels the error names are exactly those of the rows
    with both coordinates that carry the reference code and lie outside the
    box. *)
Theorem bounding_search_key_error
    (rows : list PostalCodeRecord) (code : string) (R : float)
    (i0 : nat) (r0 : PostalCodeRecord) (bb : float * float * float * float) :
  resolved rows (selects (Some code) None) i0 r0 ->
  bounding_box cos (coordinates r0) R = Found bb ->
  let outside := fun i =>
    exists r, nth_error rows i = Some r /\ complete r /\ PostalCode r = code /\
              in_box bb r = false in
  ((forall i, ~ outside i) ->
   exists s, find_nearby_postal_codes_by_bounding cos (Some rows) (Some code) R
               = Found s) /\
  (forall i, outside i ->
   exists missing,
     find_nearby_postal_codes_by_bounding cos (Some rows) (Some code) R
       = Raised (KeyError missing) /\
     forall j, In j missing <-> outside j).
Proof.
  intros Hres Hbb outside.
  unfold find_nearby_postal_codes_by_bounding.
  rewrite (nearby_resolved_box R Hres Hbb). cbn [bind fst snd]. unfold drop.
  set (ls := index (loc (selects (Some code) None) (dropna (read_csv rows)))).
  set (nearby := postal_code_column (loc (in_box bb) (dropna (read_csv rows)))).
  assert (forall j, In j (filter (fun l => negb (has_label l (labels nearby))) ls)
                    <-> outside j) as Hmissing.
  { intros j. rewrite filter_In, negb_true_iff. unfold ls.
    rewrite in_reference_index. split.
    - intros [(r & Hn & Hc & Hcode) Hlab]. exists r. repeat (split; [assumption|]).
      destruct (in_box bb r) eqn:M; [|reflexivity].
      assert (has_label j (labels nearby) = true) as Habs; [|congruence].
      apply Frame.has_label_spec, Frame.in_labels. exists code.
      apply in_nearby. exists r. tauto.
    - intros (r & Hn & Hc & Hcode & M). split; [exists r; tauto|].
      destruct (has_label j (labels nearby)) eqn:Hl; [|reflexivity].
      apply Frame.has_label_spec, Frame.in_labels in Hl. destruct Hl as [c Hin].
      apply in_nearby in Hin. destruct Hin as (r' & Hn' & _ & _ & M').
      assert (r' = r) by congruence. subst r'. congruence. }
  destruct (filter (fun l => negb (has_label l (labels nearby))) ls) as [|m ms] eqn:E.
  - split; [eauto|]. intros i Hi. apply Hmissing in Hi. destruct Hi.
  - split.
    + intros Hnone. exfalso. apply (Hnone m), Hmissing. now left.
    + intros i _. exists (m :: ms). split; [reflexivity | exact Hmissing].
Qed.

(** X6. The reference postal code is never among the postal codes the
    bounding-box search returns. *)
Theorem bounding_search_excludes_reference_code
    (rows : list PostalCodeRecord) (code : string) (R : float) (s : Series) :
  find_nearby_postal_codes_by_bounding cos (Some rows) (Some code) R = Found s ->
  ~ In code (values s).
Proof.
  intros H Hin. apply bounding_found in H.
  destruct H as (i0 & r0 & bb & ref & Eref & _ & _ & _ & Hmem).
  inversion Eref; subst ref. unfold values in Hin. apply in_map_iff in Hin.
  destruct Hin as [[i c] [E Hin]]. simpl in E. subst c.
  apply Hmem in Hin. destruct Hin as (r & _ & _ & _ & _ & Hne). now apply Hne.
Qed.

(** X7. Rows without coordinates have no part in the bounding-box search
    either: on the file without them the search ends the same way, with the
    same postal codes in the same order when a series is returned, the same
    diagnostic when none is, and an exception of the same kind when one is
    raised (the labels named by a [KeyError] shift with the rows). *)
Theorem bounding_search_ignores_incomplete_rows
    (rows : list PostalCodeRecord) (code : option string) (R : float) :
  match find_nearby_postal_codes_by_bounding cos (Some rows) code R,
        find_nearby_postal_codes_by_bounding cos (Some (filter has_coordinates rows)) code R
  with
  | Found s, Found s' => values s = values s'
  | NoResult d, NoResult d' => d = d'
  | Raised (KeyError _), Raised (KeyError _) => True
  | Raised ZeroDivisionError, Raised ZeroDivisionError => True
  | _, _ => False
  end.
Proof.
  destruct code as [code|]; [|reflexivity].
  unfold find_nearby_postal_codes_by_bounding, nearby_in_bounding_box.
  set (sel := fun r => String.eqb (PostalCode r) code).
  set (df := dropna (read_csv rows)).
  set (df' := dropna (read_csv (filter has_coordinates rows))).
  assert (map snd df' = map snd df) as Hrec
    by (unfold df, df'; now rewrite !records_dropna, has_coordinates_twice).
  assert (map snd (loc sel df') = map snd (loc sel df)) as Hsel
    by (now rewrite !records_loc, Hrec).
  destruct (loc sel df) as [|[i r] rest] eqn:E;
    destruct (loc sel df') as [|[i' r'] rest'] eqn:E';
    simpl in Hsel; try discriminate; [reflexivity|].
  inversion Hsel; subst r'. clear Hsel.
  destruct (bounding_box_outcome (Latitude r, Longitude r) R) as [[bb Hbb]|Hbb];
    rewrite Hbb; cbn [bind fst snd]; [|exact I].
  rewrite <- E, <- E'. subst df df'.
  destruct (drop_by_records rows sel (in_box bb)) as [(s & -> & Hv & Hin)|(ms & -> & Hout)];
    destruct (drop_by_records (filter has_coordinates rows) sel (in_box bb))
      as [(s' & -> & Hv' & Hin')|(ms' & -> & Hout')];
    try rewrite Hrec in *; try exact I; try contradiction.
  congruence.
Qed.

End BoundingOutcomes.

Section Outcomes.

Variable cos : float -> float.
Variable geodesic_km : float * float -> float * float -> float.

(** X2. The two searches fail alike: for the same file and postal code, the
    bounding-box search returns without a series under a diagnostic exactly
    when the exact-distance search called with that postal code alone does,
    and the diagnostic is the same, whatever the two radii. *)
Theorem searches_share_diagnostics
    (file : option (list PostalCodeRecord)) (code : option string) (R R' : float)
    (d : diagnostic) :
  find_nearby_postal_codes_by_bounding cos file code R = NoResult d <->
  find_nearby_postal_codes_by_distance geodesic_km file code None R' = NoResult d.
Proof.
  destruct file as [rows|]; [|reflexivity].
  destruct code as [code|]; [|reflexivity].
  rewrite distance_outcome.
  unfold find_nearby_postal_codes_by_bounding, nearby_in_bounding_box.
  change (fun r => String.eqb (PostalCode r) code) with (selects (Some code) None).
  destruct (loc (selects (Some code) None) (dropna (read_csv rows)))
    as [|[i0 r0] rest]; [reflexivity|].
  split; [|discriminate]. intros H. exfalso.
  destruct (bounding_box_outcome cos (Latitude r0, Longitude r0) R) as [[bb E]|E];
    rewrite E in H; simpl in H; [|discriminate].
  match type of H with drop ?ls ?s = _ =>
    destruct (drop_outcome ls s) as [[s' E']|[m E']]; rewrite E' in H; discriminate
  end.
Qed.

(** X4. A series returned by either search lists its rows in the order of
    the file: the labels increase strictly, so no row is returned twice. *)
Theorem results_in_file_order
    (rows : list PostalCodeRecord) (code city : option string) (R : float) (s : Series) :
  find_nearby_postal_codes_by_distance geodesic_km (Some rows) code city R = Found s \/
  find_nearby_postal_codes_by_bounding cos (Some rows) code R = Found s ->
  StronglySorted lt (labels s) /\ NoDup (labels s).
Proof.
  intros H.
  assert (StronglySorted lt (labels s)) as Hs; [|split; [exact Hs | now apply sorted_lt_NoDup]].
  destruct H as [H|H].
  - apply distance_found in H. destruct H as (i0 & r0 & _ & ->). apply selection_sorted.
  - unfold find_nearby_postal_codes_by_bounding in H.
    destruct (nearby_in_bounding_box cos (Some rows) code R) as [[rr nearby]| |] eqn:E;
      try discriminate.
    apply nearby_found in E. destruct E as (i0 & r0 & bb & _ & _ & -> & ->).
    cbn [bind fst snd] in H. unfold drop in H.
    destruct (filter _ (index _)); [|discriminate]. inversion H; subst s.
    unfold labels. apply filter_sorted. apply selection_sorted.
Qed.

End Outcomes.

(** ** Facts on Python strings *)

Module StrFacts.

Import Str.
Local Open Scope nat_scope.

Lemma lstrip_id (chars : N -> bool) (s : str) :
  Forall (fun c => chars c = false) s -> lstrip chars s = s.
Proof. destruct 1 as [|c s Hc _]; simpl; [reflexivity | now rewrite Hc]. Qed.

Lemma strip_chars_id (chars : N -> bool) (s : str) :
  Forall (fun c => chars c = false) s -> strip_chars chars s = s.
Proof.
  intros H. unfold strip_chars, rstrip. rewrite (@lstrip_id _ _ H), lstrip_id.
  - apply rev_involutive.
  - apply Forall_rev, H.
Qed.

Lemma kept_cases (c : N) :
  kept c = true -> (48 <= c <= 57)%N \/ c = comma \/ c = en_dash.
Proof.
  unfold kept, is_digit. rewrite !orb_true_iff, andb_true_iff, !N.eqb_eq, !N.leb_le.
  tauto.
Qed.

Lemma digit_not_space (c : N) : (48 <= c <= 57)%N -> isspace c = false.
Proof.
  intros H. unfold isspace.
  replace (c <=? 13)%N with false by (symmetry; apply N.leb_gt; lia).
  replace (c <=? 32)%N with false by (symmetry; apply N.leb_gt; lia).
  replace (8192 <=? c)%N with false by (symmetry; apply N.leb_gt; lia).
  repeat match goal with
  | |- context [(c =? ?k)%N] =>
    replace (c =? k)%N with false by (symmetry; apply N.eqb_neq; lia)
  end.
  now rewrite !andb_false_r.
Qed.

Lemma kept_not_space (c : N) : kept c = true -> isspace c = false /\ c <> space.
Proof.
  intros H. apply kept_cases in H. destruct H as [H|[->| ->]].
  - split; [now apply digit_not_space | unfold space; lia].
  - split; [reflexivity | discriminate].
  - split; [reflexivity | discriminate].
Qed.

Lemma strip_kept (s : str) : strip (filter kept s) = filter kept s.
Proof.
  apply strip_chars_id, Forall_forall. intros c Hc. apply filter_In in Hc.
  now apply kept_not_space.
Qed.

Lemma split_not_nil (sep : N) (s : str) : split sep s <> [].
Proof.
  destruct s as [|c s]; simpl; [discriminate|].
  destruct (c =? sep)%N; [discriminate|]. destruct (split sep s); discriminate.
Qed.

(** Splitting around a separator. *)
Lemma split_app_sep (sep : N) (s t : str) :
  split sep (s ++ sep :: t) = split sep s ++ split sep t.
Proof.
  induction s as [|c s IH]; simpl.
  - now rewrite N.eqb_refl.
  - destruct (c =? sep)%N; [now rewrite IH|]. rewrite IH.
    pose proof (split_not_nil sep s). destruct (split sep s); [contradiction | reflexivity].
Qed.

Lemma split_no_sep (sep : N) (s : str) :
  Forall (fun c => c <> sep) s -> split sep s = [s].
Proof.
  induction 1 as [|c s Hc _ IH]; simpl; [reflexivity|].
  destruct (N.eqb_spec c sep); [contradiction|]. now rewrite IH.
Qed.

(** No piece of a split contains the separator, and a piece is made of
    characters of the text. *)
Lemma split_pieces (sep : N) (s e : str) (c : N) :
  In e (split sep s) -> In c e -> In c s /\ c <> sep.
Proof.
  revert e; induction s as [|x s IH]; simpl; intros e He Hc.
  - destruct He as [<-|[]]. destruct Hc.
  - destruct (N.eqb_spec x sep) as [->|Hx].
    + destruct He as [<-|He]; [destruct Hc|]. destruct (IH e He Hc). tauto.
    + pose proof (split_not_nil sep s). destruct (split sep s) as [|w ws] eqn:E;
        [contradiction|].
      destruct He as [<-|He].
      * destruct Hc as [<-|Hc]; [tauto|].
        destruct (IH w (or_introl eq_refl) Hc). tauto.
      * destruct (IH e (or_intror He) Hc). tauto.
Qed.

Lemma remove_id (c : N) (s : str) : ~ In c s -> remove c s = s.
Proof.
  intros H. unfold remove. induction s as [|x s IH]; simpl; [reflexivity|].
  destruct (N.eqb_spec x c) as [->|_]; simpl.
  - exfalso. apply H. now left.
  - rewrite IH; [reflexivity|]. intros Hin. apply H. now right.
Qed.

Lemma contains_spec (c : N) (s : str) : contains c s = true <-> In c s.
Proof.
  unfold contains. rewrite existsb_exists. split.
  - intros [x [Hx E]]. apply N.eqb_eq in E. now subst.
  - intros H. exists c. split; [exact H | apply N.eqb_refl].
Qed.

Lemma endswith_in (c : N) (s : str) : endswith c s = true -> In c s.
Proof.
  unfold endswith. destruct (rev s) as [|x r] eqn:E; [discriminate|].
  intros H. apply N.eqb_eq in H. subst x. apply in_rev. rewrite E. now left.
Qed.

(** Runs of digits. *)
Lemma findall_digits_run (ds run rest : str) :
  forallb is_digit ds = true ->
  findall_digits_from run (ds ++ rest) = findall_digits_from (rev ds ++ run) rest.
Proof.
  revert run; induction ds as [|d ds IH]; simpl; intros run H; [reflexivity|].
  apply andb_true_iff in H. destruct H as [Hd Hds]. rewrite Hd, IH by exact Hds.
  now rewrite <- app_assoc.
Qed.

Lemma findall_digits_all (ds : str) :
  ds <> [] -> forallb is_digit ds = true -> findall_digits ds = [ds].
Proof.
  intros Hne H. unfold findall_digits.
  rewrite <- (app_nil_r ds) at 1. rewrite findall_digits_run by exact H.
  simpl. rewrite app_nil_r. destruct (rev ds) eqn:E.
  - apply (f_equal (@rev N)) in E. rewrite rev_involutive in E. contradiction.
  - now rewrite <- E, rev_involutive.
Qed.

(** Decimal digits of a number. *)
Lemma str_of_uint_digits (d : Decimal.uint) : forallb is_digit (str_of_uint d) = true.
Proof. induction d; simpl; auto. Qed.

Lemma int_acc (d : Decimal.uint) (acc : positive) :
  fold_left (fun n c => 10 * n + (c - 48))%N (str_of_uint d) (Npos acc) =
  Npos (Pos.of_uint_acc d acc).
Proof.
  revert acc; induction d; intros acc;
    cbn [str_of_uint fold_left Pos.of_uint_acc]; try reflexivity;
    rewrite <- IHd; f_equal; lia.
Qed.

Lemma int_str_of_uint (d : Decimal.uint) : int (str_of_uint d) = N.of_uint d.
Proof.
  unfold int, N.of_uint. induction d; simpl; try reflexivity; try exact IHd;
    apply int_acc.
Qed.

Lemma int_decimal (n : N) : int (decimal n) = n.
Proof. unfold decimal. rewrite int_str_of_uint. apply DecimalN.Unsigned.of_to. Qed.

Lemma int_zeros (k : nat) (s : str) : int (repeat 48%N k ++ s) = int s.
Proof. unfold int. induction k as [|k IH]; simpl; [reflexivity | exact IH]. Qed.

Lemma int_format_05d (n : N) : int (format_05d n) = n.
Proof. unfold format_05d. rewrite int_zeros. apply int_decimal. Qed.

Lemma format_05d_digits (n : N) : forallb is_digit (format_05d n) = true.
Proof.
  unfold format_05d, decimal. rewrite forallb_app, str_of_uint_digits, andb_true_r.
  induction (5 - List.length (str_of_uint (N.to_uint n))); simpl; auto.
Qed.

Lemma format_05d_length (n : N) : 5 <= List.length (format_05d n).
Proof. unfold format_05d. rewrite length_app, repeat_length. lia. Qed.

End StrFacts.

(** ** The cleaning of postal-code cells: [_str_to_list] *)

Module StrToList.

Import Str StrFacts.
Local Open Scope nat_scope.

Lemma segments_segment (s : str) : Forall segment (segments s).
Proof.
  apply Forall_forall. intros e He. apply Forall_forall. intros c Hc.
  destruct (@split_pieces _ _ _ _ He Hc) as [Hin Hne].
  apply filter_In in Hin. destruct Hin as [_ Hk]. apply kept_cases in Hk.
  destruct Hk as [Hd|[->| ->]]; [left | contradiction | now right].
  unfold is_digit. apply andb_true_iff. rewrite !N.leb_le. exact Hd.
Qed.

Lemma segment_chars (e : str) :
  segment e -> ~ In space e /\ ~ In comma e.
Proof.
  unfold segment. intros H. split; intros Hin; rewrite Forall_forall in H; apply H in Hin;
    destruct Hin as [Hd|Hd]; discriminate.
Qed.

Lemma segment_no_dash (e : str) :
  segment e -> contains en_dash e = false -> forallb is_digit e = true.
Proof.
  unfold segment. intros H Hc. apply forallb_forall. intros c Hin.
  rewrite Forall_forall in H. destruct (H c Hin) as [Hd| ->]; [exact Hd|].
  apply contains_spec in Hin. congruence.
Qed.

Lemma str_to_list_segments (s : str) :
  _str_to_list s = str_to_list_loop (segments s) [].
Proof. unfold _str_to_list, segments. now rewrite strip_kept. Qed.

(** One turn of the loop on a segment. *)
Lemma loop_cons (e : str) (rest : list str) (s_list : list str) :
  segment e ->
  str_to_list_loop (e :: rest) s_list =
  if contains en_dash e then
    match findall_digits e with
    | [start; end_] =>
      str_to_list_loop rest
        (s_list ++ map format_05d (range (int start) (int end_ + 1)))
    | _ => ValueError
    end
  else match e with
       | [] => Returns s_list
       | _ => str_to_list_loop rest (s_list ++ [e])
       end.
Proof.
  intros H. destruct (segment_chars H) as [Hsp Hco]. simpl.
  rewrite (@remove_id _ _ Hsp).
  destruct (contains en_dash e); [reflexivity|].
  destruct (endswith comma e) eqn:E; [|reflexivity].
  apply endswith_in in E. contradiction.
Qed.

(** The list built so far is a prefix of the result. *)
Lemma loop_acc (xs : list str) (s_list : list str) :
  str_to_list_loop xs s_list =
  match str_to_list_loop xs [] with
  | Returns l => Returns (s_list ++ l)
  | ValueError => ValueError
  end.
Proof.
  revert s_list; induction xs as [|e xs IH]; intros s_list.
  - simpl. now rewrite app_nil_r.
  - simpl.
    repeat match goal with
    | |- context [if ?b then _ else _] => destruct b
    | |- context [match findall_digits ?e with _ => _ end] =>
      destruct (findall_digits e) as [|? [|? [|? ?]]]
    | |- context [match remove ?c ?e with _ => _ end] => destruct (remove c e)
    end; try reflexivity; try (now rewrite app_nil_r);
    rewrite IH; symmetry; rewrite IH; symmetry;
    destruct (str_to_list_loop xs []); try reflexivity;
    now rewrite app_assoc.
Qed.

(** Segments in sequence, when the first ones hold no empty segment. *)
Lemma loop_app (xs ys : list str) :
  Forall segment xs -> ~ In [] xs ->
  str_to_list_loop (xs ++ ys) [] =
  match str_to_list_loop xs [] with
  | Returns l =>
    match str_to_list_loop ys [] with
    | Returns l' => Returns (l ++ l')
    | ValueError => ValueError
    end
  | ValueError => ValueError
  end.
Proof.
  induction 1 as [|e xs He Hxs IH]; intros Hne.
  - simpl. now destruct (str_to_list_loop ys []).
  - assert (e <> [] /\ ~ In [] xs) as [He' Hne'].
    { split; intros H; apply Hne; [now left | now right]. }
    specialize (IH Hne'). simpl app. rewrite !(@loop_cons _ _ _ He).
    destruct (contains en_dash e).
    + destruct (findall_digits e) as [|a [|b [|c l]]]; try reflexivity.
      rewrite loop_acc, IH. symmetry. rewrite loop_acc.
      destruct (str_to_list_loop xs []); [|reflexivity].
      destruct (str_to_list_loop ys []); [|reflexivity].
      now rewrite app_assoc.
    + destruct e as [|c e]; [contradiction|].
      rewrite loop_acc, IH. symmetry. rewrite loop_acc.
      destruct (str_to_list_loop xs []); [|reflexivity].
      destruct (str_to_list_loop ys []); [|reflexivity].
      now rewrite app_assoc.
Qed.

(** Nothing after an empty segment is read. *)
Lemma loop_stop (xs ys : list str) (s_list : list str) :
  Forall segment xs -> In [] xs ->
  str_to_list_loop (xs ++ ys) s_list = str_to_list_loop xs s_list.
Proof.
  intros H; revert s_list; induction H as [|e xs He Hxs IH]; intros s_list Hin;
    [destruct Hin|].
  simpl app. rewrite !(@loop_cons _ _ _ He).
  destruct (contains en_dash e) eqn:Hd.
  - destruct Hin as [->|Hin]; [discriminate|].
    destruct (findall_digits e) as [|a [|b [|c l]]]; try reflexivity. now apply IH.
  - destruct e as [|c e]; [reflexivity|].
    destruct Hin as [Hin|Hin]; [discriminate|]. now apply IH.
Qed.

Lemma segments_app_comma (s t : str) :
  segments (s ++ comma :: t) = segments s ++ segments t.
Proof.
  unfold segments. rewrite filter_app. simpl filter.
  change (kept comma) with true. cbv iota. apply split_app_sep.
Qed.

(** X8. Codes separated by a comma: when the text before a comma has no
    empty segment, the list for the whole text is the list for the text
    before the comma followed by the list for the text after it, and the
    call raises as soon as one of the two does. *)
Theorem str_to_list_comma (s t : str) :
  ~ In [] (segments s) ->
  _str_to_list (s ++ comma :: t) =
  match _str_to_list s with
  | Returns l =>
    match _str_to_list t with
    | Returns l' => Returns (l ++ l')
    | ValueError => ValueError
    end
  | ValueError => ValueError
  end.
Proof.
  intros H. rewrite !str_to_list_segments, segments_app_comma.
  apply loop_app; [apply segments_segment | exact H].
Qed.

(** X9. The loop stops at the first empty segment: when the text before a
    comma has an empty segment (it is empty once cleaned, starts or ends
    with a comma, or has two commas in a row), whatever follows that comma
    is dropped without notice. *)
Theorem str_to_list_stops_at_empty_segment (s t : str) :
  In [] (segments s) ->
  _str_to_list (s ++ comma :: t) = _str_to_list s.
Proof.
  intros H. rewrite !str_to_list_segments, segments_app_comma.
  apply loop_stop; [apply segments_segment | exact H].
Qed.

Lemma loop_digits (xs : list str) (s_list l : list str) :
  Forall segment xs ->
  Forall (fun c => c <> [] /\ digits c) s_list ->
  str_to_list_loop xs s_list = Returns l ->
  Forall (fun c => c <> [] /\ digits c) l.
Proof.
  intros H; revert s_list; induction H as [|e xs He Hxs IH]; intros s_list Hacc.
  - simpl. intros E. now inversion E; subst.
  - rewrite (@loop_cons _ _ _ He). destruct (contains en_dash e) eqn:Hd.
    + destruct (findall_digits e) as [|a [|b [|c r]]]; try discriminate.
      apply IH. apply Forall_app. split; [exact Hacc|].
      apply Forall_forall. intros c Hc. apply in_map_iff in Hc.
      destruct Hc as [n [<- _]]. split.
      * pose proof (format_05d_length n). destruct (format_05d n); [simpl in *; lia|].
        discriminate.
      * apply format_05d_digits.
    + destruct e as [|c e]; [intros E; now inversion E; subst|].
      apply IH. apply Forall_app. split; [exact Hacc|]. constructor; [|constructor].
      split; [discriminate|]. now apply segment_no_dash.
Qed.

(** X10. Whatever the text, every code of a returned list is a non-empty
    string of digits [[0-9]]. *)
Theorem str_to_list_returns_digits (s : str) (l : list str) :
  _str_to_list s = Returns l -> Forall (fun c => c <> [] /\ digits c) l.
Proof.
  rewrite str_to_list_segments.
  apply loop_digits; [apply segments_segment | constructor].
Qed.

Lemma digit_kept (c : N) : is_digit c = true -> kept c = true /\ c <> comma /\ c <> en_dash.
Proof.
  intros H. unfold kept. rewrite H. split; [reflexivity|].
  split; intros ->; discriminate.
Qed.

Lemma filter_kept_digits (a : str) : digits a -> filter kept a = a.
Proof.
  unfold digits. induction a as [|c a IH]; simpl; intros H; [reflexivity|].
  apply andb_true_iff in H. destruct H as [Hc Ha].
  destruct (digit_kept c Hc) as [-> _]. now rewrite IH.
Qed.

Lemma filter_kept_junk (j : str) : Forall (fun c => kept c = false) j -> filter kept j = [].
Proof. induction 1 as [|c j Hc _ IH]; simpl; [reflexivity | now rewrite Hc]. Qed.

Lemma digits_segment (a : str) : digits a -> segment a /\ contains en_dash a = false.
Proof.
  unfold digits. intros H. rewrite forallb_forall in H. split.
  - apply Forall_forall. intros c Hc. left. now apply H.
  - destruct (contains en_dash a) eqn:E; [|reflexivity].
    apply contains_spec, H in E. discriminate.
Qed.

Lemma digits_no_comma (a : str) : digits a -> Forall (fun c => c <> comma) a.
Proof.
  unfold digits. intros H. rewrite forallb_forall in H. apply Forall_forall.
  intros c Hc. now apply digit_kept, H.
Qed.

(** X11. Only digits, commas and en dashes count.  Any other characters
    between two runs of digits (spaces, letters, quotes, an ASCII hyphen)
    are deleted, so the two runs become one code: "01067-01069", written
    with a hyphen, is the single code "0106701069", not a range. *)
Theorem str_to_list_joins_across_other_characters (a j b : str) :
  digits a -> digits b -> a ++ b <> [] ->
  Forall (fun c => kept c = false) j ->
  _str_to_list (a ++ j ++ b) = Returns [a ++ b].
Proof.
  intros Ha Hb Hne Hj. rewrite str_to_list_segments. unfold segments.
  rewrite !filter_app, (filter_kept_digits Ha), (filter_kept_digits Hb),
    (filter_kept_junk Hj). simpl app.
  assert (digits (a ++ b)) as Hab
    by (unfold digits in *; rewrite forallb_app, Ha, Hb; reflexivity).
  rewrite (split_no_sep (digits_no_comma Hab)).
  destruct (digits_segment Hab) as [Hseg Hdash].
  rewrite (@loop_cons _ _ _ Hseg), Hdash.
  destruct (a ++ b); [contradiction | reflexivity].
Qed.

Lemma findall_digits_pair (a b : str) :
  a <> [] -> b <> [] -> digits a -> digits b ->
  findall_digits (a ++ en_dash :: b) = [a; b].
Proof.
  intros Hna Hnb Ha Hb. unfold findall_digits.
  rewrite findall_digits_run by exact Ha. rewrite app_nil_r. simpl.
  destruct (rev a) eqn:E.
  - apply (f_equal (@rev N)) in E. rewrite rev_involutive in E. contradiction.
  - rewrite <- E, rev_involutive. f_equal. now apply findall_digits_all.
Qed.

(** X12. A range.  Two non-empty runs of digits [a] and [b] around an en
    dash (other characters around the dash do not count) give one code for
    each number from [int a] to [int b] in increasing order, none when
    [b] is below [a]: read back as numbers the codes are
    [range(int a, int b + 1)], and each code is written with digits only,
    five at least. *)
Theorem str_to_list_range (a j1 j2 b : str) :
  a <> [] -> b <> [] -> digits a -> digits b ->
  Forall (fun c => kept c = false) j1 -> Forall (fun c => kept c = false) j2 ->
  exists l,
    _str_to_list (a ++ j1 ++ en_dash :: j2 ++ b) = Returns l /\
    map int l = range (int a) (int b + 1) /\
    Forall (fun c => 5 <= List.length c /\ digits c) l.
Proof.
  intros Hna Hnb Ha Hb Hj1 Hj2.
  exists (map format_05d (range (int a) (int b + 1))). split; [|split].
  - rewrite str_to_list_segments. unfold segments.
    rewrite !filter_app. simpl filter. change (kept en_dash) with true. cbv iota.
    rewrite filter_app, (filter_kept_digits Ha), (filter_kept_digits Hb),
      (filter_kept_junk Hj1), (filter_kept_junk Hj2). simpl app.
    assert (segment (a ++ en_dash :: b)) as Hseg.
    { apply Forall_app. split; [apply (digits_segment Ha)|].
      constructor; [now right | apply (digits_segment Hb)]. }
    rewrite split_no_sep.
    + rewrite (@loop_cons _ _ _ Hseg).
      assert (contains en_dash (a ++ en_dash :: b) = true) as ->
        by (apply contains_spec, in_or_app; right; now left).
      now rewrite findall_digits_pair.
    + apply Forall_app. split; [now apply digits_no_comma|].
      constructor; [discriminate | now apply digits_no_comma].
  - rewrite map_map. rewrite <- (map_id (range (int a) (int b + 1))) at 2.
    apply map_ext. apply int_format_05d.
  - apply Forall_forall. intros c Hc. apply in_map_iff in Hc.
    destruct Hc as [n [<- _]]. split; [apply format_05d_length | apply format_05d_digits].
Qed.

(** The loop raises exactly when it reaches a segment with an en dash whose
    runs of digits are not two. *)
Lemma loop_raises (xs : list str) (s_list : list str) :
  Forall segment xs ->
  (str_to_list_loop xs s_list = ValueError <->
   exists pre e post,
     xs = pre ++ e :: post /\ ~ In [] pre /\ In en_dash e /\
     List.length (findall_digits e) <> 2).
Proof.
  intros H; revert s_list; induction H as [|e xs He Hxs IH]; intros s_list.
  - simpl. split; [discriminate|]. intros (pre & e & post & E & _).
    destruct pre; discriminate.
  - rewrite (@loop_cons _ _ _ He). split.
    + destruct (contains en_dash e) eqn:Hd.
      * assert (e <> []) as Hne by (intros ->; discriminate).
        destruct (findall_digits e) as [|a [|b [|c r]]] eqn:Ef;
          try (intros _; exists [], e, xs; rewrite Ef;
               repeat split; [tauto | now apply contains_spec | simpl; lia]).
        intros E. apply IH in E. destruct E as (pre & e' & post & -> & Hpre & Hin & Hlen).
        exists (e :: pre), e', post. repeat split; try assumption.
        intros [Hx|Hx]; [now apply Hne | now apply Hpre].
      * destruct e as [|c e]; [discriminate|].
        intros E. apply IH in E. destruct E as (pre & e' & post & -> & Hpre & Hin & Hlen).
        exists ((c :: e) :: pre), e', post. repeat split; try assumption.
        intros [Hx|Hx]; [discriminate | now apply Hpre].
    + intros (pre & e' & post & E & Hpre & Hin & Hlen).
      destruct pre as [|p pre]; simpl in E; inversion E; subst.
      * apply contains_spec in Hin. rewrite Hin.
        destruct (findall_digits e') as [|a [|b [|c r]]]; try reflexivity.
        simpl in Hlen. lia.
      * assert (p <> [] /\ ~ In [] pre) as [Hp Hpre'].
        { split; intros Hx; apply Hpre; [now left | now right]. }
        assert (exists pre0 e0 post0,
                  pre ++ e' :: post = pre0 ++ e0 :: post0 /\ ~ In [] pre0 /\
                  In en_dash e0 /\ List.length (findall_digits e0) <> 2) as Hex
          by (exists pre, e', post; tauto).
        destruct (contains en_dash p).
        -- destruct (findall_digits p) as [|a [|b [|c r]]]; try reflexivity.
           now apply IH.
        -- destruct p as [|c p]; [contradiction|]. now apply IH.
Qed.

(** X13. When the call raises.  [_str_to_list] raises [ValueError] exactly
    when, before any empty segment, some segment of the cleaned text holds
    an en dash and its runs of digits are not exactly two (a dash without a
    number on one side, or more than one dash). *)
Theorem str_to_list_raises (s : str) :
  _str_to_list s = ValueError <->
  exists pre e post,
    segments s = pre ++ e :: post /\ ~ In [] pre /\ In en_dash e /\
    List.length (findall_digits e) <> 2.
Proof. rewrite str_to_list_segments. apply loop_raises, segments_segment. Qed.

End StrToList.

(** ** Retries of the geocoder *)

Section Geocoding.

Local Open Scope nat_scope.

Variable geocode : nat -> reply.
Variable postal_code : string.

(** X14. [geocode_postal_code] calls the geocoder again only after an HTTP
    503 error, three times at most, sleeping five seconds after each such
    error.  The first reply that is not a 503 error decides the result: the
    coordinates of a location, and no coordinates for an empty result or
    another error, neither being retried.  After three 503 errors the
    function ends without returning a triple. *)
Theorem geocode_postal_code_outcome :
  (exists k,
     k < 3 /\
     (forall j, j < k -> geocode j = ServiceError true) /\
     geocode k <> ServiceError true /\
     geocode_postal_code geocode postal_code
       = (Some (answer postal_code (geocode k)), S k, retry_delay * k)) \/
  ((forall j, j < 3 -> geocode j = ServiceError true) /\
   geocode_postal_code geocode postal_code = (None, 3, 3 * retry_delay)).
Proof.
  unfold geocode_postal_code. simpl geocode_attempts.
  assert (forall j, j < 0 -> geocode j = ServiceError true) as H0 by (intros; lia).
  destruct (geocode 0) as [lon lat| |[|]] eqn:E0.
  1, 2, 4: left; exists 0; split; [lia|]; split; [exact H0|];
    rewrite E0; split; [discriminate | reflexivity].
  assert (forall j, j < 1 -> geocode j = ServiceError true) as H1
    by (intros j Hj; assert (j = 0) as -> by lia; exact E0).
  destruct (geocode 1) as [lon lat| |[|]] eqn:E1.
  1, 2, 4: left; exists 1; split; [lia|]; split; [exact H1|];
    rewrite E1; split; [discriminate | reflexivity].
  assert (forall j, j < 2 -> geocode j = ServiceError true) as H2
    by (intros j Hj; assert (j = 0 \/ j = 1) as [-> | ->] by lia; assumption).
  destruct (geocode 2) as [lon lat| |[|]] eqn:E2.
  1, 2, 4: left; exists 2; split; [lia|]; split; [exact H2|];
    rewrite E2; split; [discriminate | reflexivity].
  right. split; [|reflexivity].
  intros j Hj. assert (j = 0 \/ j = 1 \/ j = 2) as [-> | [-> | ->]] by lia; assumption.
Qed.

End Geocoding.

(** ** Cells of codes, split *)

Module SplitFacts.

Import Str StrFacts Split.
Local Open Scope nat_scope.

Lemma lstrip_prefix (chars : N -> bool) (p s : str) :
  Forall (fun c => chars c = true) p -> lstrip chars (p ++ s) = lstrip chars s.
Proof. induction 1 as [|c p Hc _ IH]; simpl; [reflexivity | now rewrite Hc]. Qed.

Lemma lstrip_stop (chars : N -> bool) (c : N) (s : str) :
  chars c = false -> lstrip chars (c :: s) = c :: s.
Proof. intros H. simpl. now rewrite H. Qed.

Lemma rstrip_suffix (chars : N -> bool) (s p : str) :
  Forall (fun c => chars c = true) p -> rstrip chars (s ++ p) = rstrip chars s.
Proof.
  intros H. unfold rstrip. rewrite rev_app_distr, lstrip_prefix; [reflexivity|].
  now apply Forall_rev.
Qed.

Lemma rstrip_stop (chars : N -> bool) (s : str) (c : N) :
  chars c = false -> rstrip chars (s ++ [c]) = s ++ [c].
Proof.
  intros H. unfold rstrip. rewrite rev_app_distr. simpl rev at 2. simpl app.
  rewrite lstrip_stop by exact H. simpl. now rewrite rev_involutive.
Qed.

Lemma digit_facts (c : N) (chars : list N) :
  is_digit c = true ->
  Forall (fun x => is_digit x = false) chars -> in_chars chars c = false.
Proof.
  intros Hc H. unfold in_chars. destruct (existsb (N.eqb c) chars) eqn:E; [|reflexivity].
  apply existsb_exists in E. destruct E as [x [Hx Ex]]. apply N.eqb_eq in Ex. subst x.
  rewrite Forall_forall in H. apply H in Hx. congruence.
Qed.

(** A code starts and ends with a digit. *)
Lemma code_ends (c : str) :
  code c ->
  (exists d t, c = d :: t /\ is_digit d = true) /\
  (exists t d, c = t ++ [d] /\ is_digit d = true).
Proof.
  intros [Hne Hd]. unfold digits in Hd. rewrite forallb_forall in Hd. split.
  - destruct c as [|d t]; [contradiction|]. exists d, t. split; [reflexivity|].
    apply Hd. now left.
  - destruct (exists_last Hne) as (t & d & ->). exists t, d. split; [reflexivity|].
    apply Hd, in_or_app. right. now left.
Qed.

Lemma inner_ends (l : list str) :
  l <> [] -> Forall code l ->
  (exists d t, inner l = d :: t /\ is_digit d = true) /\
  (exists t d, inner l = t ++ [d] /\ is_digit d = true).
Proof.
  intros Hne H. induction H as [|c l Hc Hl IH]; [contradiction|].
  destruct (code_ends Hc) as [(d & t & -> & Hd) _].
  destruct l as [|c' l'].
  - simpl. split; [now exists d, t|]. apply (code_ends Hc).
  - destruct IH as [_ (t' & d' & E & Hd')]; [discriminate|].
    change (inner ((d :: t) :: c' :: l'))
      with ((d :: t) ++ quote :: comma :: space :: quote :: inner (c' :: l')).
    split.
    + exists d. eexists. split; [reflexivity | exact Hd].
    + exists ((d :: t) ++ quote :: comma :: space :: quote :: t'), d'. split; [|exact Hd'].
      rewrite E. rewrite <- app_assoc. reflexivity.
Qed.

Lemma joined_inner (l : list str) : l <> [] -> joined l = quote :: inner l ++ [quote].
Proof.
  induction l as [|c l IH]; [contradiction|]. intros _. destruct l as [|c' l'].
  - reflexivity.
  - change (joined (c :: c' :: l'))
      with (quoted c ++ comma :: space :: joined (c' :: l')).
    rewrite IH by discriminate. unfold quoted.
    change (inner (c :: c' :: l'))
      with (c ++ quote :: comma :: space :: quote :: inner (c' :: l')).
    simpl. rewrite <- !app_assoc. reflexivity.
Qed.

(** Stripping the text of a list leaves the text between its first and its
    last code. *)
Lemma strip_list_text (l : list str) :
  l <> [] -> Forall code l ->
  strip_chars (in_chars [space; quote; lbracket; rbracket]) (list_text l) = inner l.
Proof.
  intros Hne H. unfold list_text. rewrite (joined_inner Hne).
  destruct (inner_ends Hne H) as [(d & t & E & Hd) (t' & d' & E' & Hd')].
  assert (forall x, is_digit x = true ->
                    in_chars [space; quote; lbracket; rbracket] x = false) as Hdig.
  { intros x Hx. apply digit_facts; [exact Hx|]. repeat constructor. }
  unfold strip_chars.
  assert (lbracket :: (quote :: inner l ++ [quote]) ++ [rbracket] =
          [lbracket; quote] ++ inner l ++ [quote; rbracket]) as ->
    by (simpl; rewrite <- app_assoc; reflexivity).
  rewrite lstrip_prefix by (repeat constructor).
  rewrite E. simpl app. rewrite lstrip_stop by (now apply Hdig).
  change (d :: t ++ [quote; rbracket]) with ((d :: t) ++ [quote; rbracket]).
  rewrite rstrip_suffix by (repeat constructor).
  rewrite <- E, E'. now apply rstrip_stop, Hdig.
Qed.

Lemma code_no_comma (c : str) : code c -> Forall (fun x => x <> comma) c.
Proof. intros [_ Hd]. now apply StrToList.digits_no_comma. Qed.

Lemma split_later (l : list str) :
  l <> [] -> Forall code l ->
  split comma (space :: quote :: inner l) = later_pieces l.
Proof.
  intros Hne H. induction H as [|c l Hc Hl IH]; [contradiction|].
  destruct l as [|c' l'].
  - simpl inner. simpl later_pieces. apply split_no_sep.
    constructor; [discriminate|]. constructor; [discriminate|]. now apply code_no_comma.
  - change (inner (c :: c' :: l'))
      with (c ++ quote :: comma :: space :: quote :: inner (c' :: l')).
    replace (space :: quote :: c ++ quote :: comma :: space :: quote :: inner (c' :: l'))
      with ((space :: quote :: c ++ [quote]) ++ comma :: space :: quote :: inner (c' :: l'))
      by (simpl; rewrite <- app_assoc; reflexivity).
    rewrite split_app_sep, IH by discriminate.
    rewrite split_no_sep; [reflexivity|].
    constructor; [discriminate|]. constructor; [discriminate|].
    apply Forall_app. split; [now apply code_no_comma|]. constructor; [discriminate|constructor].
Qed.

(** The pieces of the cell of a list of codes. *)
Lemma split_cell_list_text (l : list str) :
  Forall code l -> split_cell (list_text l) = raw_pieces l.
Proof.
  intros H. destruct l as [|c l]; [reflexivity|].
  unfold split_cell. rewrite strip_list_text by (discriminate || exact H).
  inversion H as [|? ? Hc Hl]; subst. destruct l as [|c' l'].
  - simpl. apply split_no_sep. now apply code_no_comma.
  - change (inner (c :: c' :: l'))
      with (c ++ quote :: comma :: space :: quote :: inner (c' :: l')).
    replace (c ++ quote :: comma :: space :: quote :: inner (c' :: l'))
      with ((c ++ [quote]) ++ comma :: space :: quote :: inner (c' :: l'))
      by (rewrite <- app_assoc; reflexivity).
    rewrite split_app_sep, split_later by (discriminate || exact Hl).
    rewrite split_no_sep; [reflexivity|].
    apply Forall_app. split; [now apply code_no_comma|]. constructor; [discriminate|constructor].
Qed.

Lemma code_not (x : N) (c : str) : is_digit x = false -> code c -> ~ In x c.
Proof.
  intros Hx [_ Hd] Hin. unfold digits in Hd. rewrite forallb_forall in Hd.
  apply Hd in Hin. congruence.
Qed.

(** Cleaning a piece gives back its code, with or without the space and the
    quotes around it. *)
Lemma clean_piece (c : str) (before after : bool) :
  code c ->
  clean_cell ((if before then [space; quote] else []) ++ c ++
              (if after then [quote] else [])) = c.
Proof.
  intros Hc. unfold clean_cell.
  destruct (code_ends Hc) as [(d & t & E & Hd) (t' & d' & E' & Hd')].
  assert (forall x, is_digit x = true -> in_chars [space] x = false) as Hdig
    by (intros x Hx; apply digit_facts; [exact Hx | repeat constructor]).
  assert (strip_chars (in_chars [space])
            ((if before then [space; quote] else []) ++ c ++
             (if after then [quote] else [])) =
          (if before then [quote] else []) ++ c ++ (if after then [quote] else []))
    as ->.
  { unfold strip_chars.
    assert (lstrip (in_chars [space])
              ((if before then [space; quote] else []) ++ c ++
               (if after then [quote] else [])) =
            (if before then [quote] else []) ++ c ++ (if after then [quote] else []))
      as ->.
    { destruct before; simpl app.
      - simpl. reflexivity.
      - rewrite E. simpl app. now apply lstrip_stop, Hdig. }
    destruct after.
    - rewrite !app_assoc. now apply rstrip_stop.
    - rewrite app_nil_r, E', app_assoc. now apply rstrip_stop, Hdig. }
  unfold remove. rewrite !filter_app.
  assert (filter (fun x => negb (x =? quote)%N) c = c) as ->.
  { apply (@remove_id quote c). now apply code_not. }
  destruct before, after; simpl; now rewrite ?app_nil_r.
Qed.

Lemma clean_only (c : str) : code c -> clean_cell c = c.
Proof. intros H. pose proof (clean_piece false false H) as E. simpl in E. now rewrite app_nil_r in E. Qed.

Lemma clean_first (c : str) : code c -> clean_cell (c ++ [quote]) = c.
Proof. intros H. exact (clean_piece false true H). Qed.

Lemma clean_middle (c : str) : code c -> clean_cell (space :: quote :: c ++ [quote]) = c.
Proof. intros H. exact (clean_piece true true H). Qed.

Lemma clean_last (c : str) : code c -> clean_cell (space :: quote :: c) = c.
Proof. intros H. pose proof (clean_piece true false H) as E. simpl in E. now rewrite app_nil_r in E. Qed.

Lemma clean_later_pieces (l : list str) :
  Forall code l -> map clean_cell (later_pieces l) = l.
Proof.
  induction 1 as [|c l Hc Hl IH]; [reflexivity|]. destruct l as [|c' l'].
  - simpl. now rewrite clean_last.
  - change (later_pieces (c :: c' :: l'))
      with ((space :: quote :: c ++ [quote]) :: later_pieces (c' :: l')).
    rewrite map_cons. f_equal; [now apply clean_middle | exact IH].
Qed.

Lemma clean_split_list_text (l : list str) :
  Forall code l ->
  map clean_cell (split_cell (list_text l)) = match l with [] => [[]] | _ => l end.
Proof.
  intros H. rewrite (split_cell_list_text H). destruct l as [|c l]; [reflexivity|].
  inversion H as [|? ? Hc Hl]; subst. destruct l as [|c' l'].
  - simpl. now rewrite clean_only.
  - change (raw_pieces (c :: c' :: l')) with ((c ++ [quote]) :: later_pieces (c' :: l')).
    rewrite map_cons. f_equal; [now apply clean_first | exact (clean_later_pieces Hl)].
Qed.

Lemma clean_raw_pieces (l : list str) :
  Forall code l -> l <> [] -> map clean_cell (raw_pieces l) = l.
Proof.
  intros H Hne. rewrite <- (split_cell_list_text H), (clean_split_list_text H).
  destruct l; [now contradiction Hne | reflexivity].
Qed.

Lemma str_eqb_spec (a b : str) : str_eqb a b = true <-> a = b.
Proof. unfold str_eqb. destruct (list_eq_dec N.eq_dec a b); split; congruence. Qed.

Lemma seen_spec (x : str) (seen : list str) :
  existsb (str_eqb x) seen = true <-> In x seen.
Proof.
  rewrite existsb_exists. split.
  - intros [y [Hy E]]. apply str_eqb_spec in E. now subst.
  - intros H. exists x. split; [exact H | now apply str_eqb_spec].
Qed.

Section Rows.

Variable row : Type.

Lemma drop_duplicates_from_spec (df : list (row * str)) :
  forall seen,
    NoDup (map snd (drop_duplicates_from seen df)) /\
    forall x, In x (map snd (drop_duplicates_from seen df)) <->
              In x (map snd df) /\ ~ In x seen.
Proof.
  induction df as [|r df IH]; intros seen; simpl.
  - split; [constructor | tauto].
  - destruct (existsb (str_eqb (snd r)) seen) eqn:E.
    + apply seen_spec in E. destruct (IH seen) as [Hnd Hin]. split; [exact Hnd|].
      intros x. rewrite Hin. split; [tauto|]. intros [[<-|H] Hs]; tauto.
    + assert (~ In (snd r) seen) as Hr
        by (intros H; apply seen_spec in H; congruence).
      destruct (IH (snd r :: seen)) as [Hnd Hin]. simpl. split.
      * constructor; [|exact Hnd]. rewrite Hin. simpl. tauto.
      * intros x. rewrite Hin. simpl. split.
        -- intros [<-|[H Hs]]; tauto.
        -- intros [[<-|H] Hs]; [now left|].
           destruct (list_eq_dec N.eq_dec (snd r) x) as [<-|Hne]; [now left|]. right. tauto.
Qed.

(** X16. Duplicates are dropped before the pieces are cleaned, so a code can
    leave the splitting step twice: a code that is the only one of its cell
    and also the last one of a longer cell is written bare the first time,
    with a space and a quote before it the second time, and both rows
    are kept. *)
Theorem split_can_keep_a_code_twice (A B : row) (c d : str) :
  code c -> code d ->
  map snd (split_cities_postal_codes [(A, list_text [c]); (B, list_text [d; c])])
    = [c; d; c].
Proof.
  intros Hc Hd. unfold split_cities_postal_codes. simpl map at 2.
  rewrite !split_cell_list_text by (repeat (apply Forall_cons; [assumption|]); apply Forall_nil).
  simpl raw_pieces. unfold explode. simpl flat_map.
  unfold drop_duplicates. simpl drop_duplicates_from.
  assert (str_eqb (d ++ [quote]) c = false) as ->.
  { destruct (str_eqb (d ++ [quote]) c) eqn:E; [|reflexivity].
    apply str_eqb_spec in E. exfalso.
    apply (@code_not quote c); [reflexivity | exact Hc|].
    rewrite <- E. apply in_or_app. right. now left. }
  assert (str_eqb (space :: quote :: c) (d ++ [quote]) = false) as ->.
  { destruct (str_eqb (space :: quote :: c) (d ++ [quote])) eqn:E; [|reflexivity].
    apply str_eqb_spec in E. exfalso.
    destruct (code_ends Hd) as [(x & t & -> & Hx) _]. simpl in E. inversion E; subst.
    discriminate. }
  assert (str_eqb (space :: quote :: c) c = false) as ->.
  { destruct (str_eqb (space :: quote :: c) c) eqn:E; [|reflexivity].
    apply str_eqb_spec in E. exfalso.
    apply (f_equal (@List.length N)) in E. simpl in E. lia. }
  simpl. now rewrite clean_only, clean_first, clean_last.
Qed.

(** X17. When every cell holds one code, the splitting step leaves each code
    once: the codes written are those read, none of them twice. *)
Theorem split_single_codes_unique (df : list (row * str)) :
  Forall code (map snd df) ->
  let out := split_cities_postal_codes (map (fun r => (fst r, list_text [snd r])) df) in
  NoDup (map snd out) /\ forall c, In c (map snd out) <-> In c (map snd df).
Proof.
  intros H out.
  assert (out = drop_duplicates df) as ->.
  { unfold out, split_cities_postal_codes. rewrite map_map. simpl.
    assert (explode (map (fun r : row * str => (fst r, split_cell (list_text [snd r]))) df)
            = df) as ->.
    { unfold explode. induction df as [|[a c] df IH]; [reflexivity|].
      inversion H as [|? ? Hc Hdf]; subst. simpl.
      rewrite split_cell_list_text by (repeat (apply Forall_cons; [assumption|]); apply Forall_nil).
      simpl. now rewrite IH. }
    assert (forall r, In r (drop_duplicates df) -> code (snd r)) as Hcodes.
    { intros r Hr. rewrite Forall_forall in H. apply H.
      apply (in_map snd) in Hr.
      apply (drop_duplicates_from_spec df []) in Hr. tauto. }
    induction (drop_duplicates df) as [|[a c] l IH]; [reflexivity|].
    simpl. rewrite clean_only by (apply (Hcodes (a, c)); now left).
    f_equal. apply IH. intros r Hr. apply Hcodes. now right. }
  destruct (drop_duplicates_from_spec df []) as [Hnd Hin]. split; [exact Hnd|].
  intros c. unfold drop_duplicates. rewrite Hin. simpl. tauto.
Qed.

Lemma drop_duplicates_from_nodup (df : list (row * str)) :
  forall seen,
    NoDup (map snd df) -> (forall x, In x (map snd df) -> ~ In x seen) ->
    drop_duplicates_from seen df = df.
Proof.
  induction df as [|r df IH]; intros seen Hnd Hs; simpl; [reflexivity|].
  inversion Hnd as [|? ? Hr Hnd']; subst.
  destruct (existsb (str_eqb (snd r)) seen) eqn:E.
  - apply seen_spec in E. exfalso. apply (Hs (snd r)); [now left | exact E].
  - f_equal. apply IH; [exact Hnd'|].
    intros x Hx [<-|Hin]; [contradiction|]. apply (Hs x); [now right | exact Hin].
Qed.

Lemma clean_exploded_pieces (df : list (row * list str)) :
  Forall (fun r => snd r <> [] /\ Forall code (snd r)) df ->
  map (fun r => (fst r, clean_cell (snd r)))
    (explode (map (fun r => (fst r, raw_pieces (snd r))) df))
  = flat_map (fun r => map (pair (fst r)) (snd r)) df.
Proof.
  unfold explode. induction 1 as [|[a l] df [Hne Hc] _ IH]; [reflexivity|].
  cbn [map flat_map fst snd] in *. rewrite map_app, IH. f_equal.
  rewrite map_map. cbn [fst snd]. rewrite <- (clean_raw_pieces Hc Hne) at 2.
  now rewrite map_map.
Qed.

Lemma codes_of_rows (df : list (row * list str)) :
  map snd (flat_map (fun r => map (pair (fst r)) (snd r)) df) = List.concat (map snd df).
Proof.
  induction df as [|[a l] df IH]; [reflexivity|]. cbn [map flat_map List.concat fst snd].
  rewrite map_app, IH, map_map. cbn [snd]. now rewrite map_id.
Qed.

(** The splitting step on a frame of lists of codes none of which is empty,
    with no code twice in the frame. *)
Lemma split_distinct_codes (df : list (row * list str)) :
  Forall (fun r => snd r <> [] /\ Forall code (snd r)) df ->
  NoDup (List.concat (map snd df)) ->
  split_cities_postal_codes (map (fun r => (fst r, list_text (snd r))) df)
  = flat_map (fun r => map (pair (fst r)) (snd r)) df.
Proof.
  intros H Hnd. unfold split_cities_postal_codes. rewrite map_map. cbn [fst snd].
  assert (map (fun r : row * list str => (fst r, split_cell (list_text (snd r)))) df
          = map (fun r => (fst r, raw_pieces (snd r))) df) as ->.
  { apply map_ext_in. intros r Hr. rewrite Forall_forall in H.
    now rewrite (split_cell_list_text (proj2 (H r Hr))). }
  pose proof (clean_exploded_pieces H) as Hclean.
  assert (NoDup (map snd (explode (map (fun r : row * list str =>
                                          (fst r, raw_pieces (snd r))) df)))) as Hraw.
  { apply (NoDup_map_inv clean_cell). rewrite <- (codes_of_rows df), <- Hclean in Hnd.
    rewrite map_map in Hnd. rewrite map_map. exact Hnd. }
  unfold drop_duplicates. rewrite (@drop_duplicates_from_nodup _ [] Hraw); [exact Hclean|].
  intros x _ [].
Qed.

(** X15. When no list of the cleaned frame is empty and no code stands twice
    in the frame, the splitting step writes one row for each code, in the
    order of the frame and of its lists, each code bare and next to the
    other columns of the row it came from. *)
Theorem split_writes_one_row_per_code (df : list (row * list str)) :
  Forall (fun r => snd r <> [] /\ Forall code (snd r)) df ->
  NoDup (List.concat (map snd df)) ->
  split_cities_postal_codes (map (fun r => (fst r, list_text (snd r))) df)
  = flat_map (fun r => map (pair (fst r)) (snd r)) df.
Proof. apply split_distinct_codes. Qed.

(** X21. The cleaning and the splitting compose: when every list of the
    cleaned frame is one that [_str_to_list] returned for some text, none
    is empty and no code stands twice in the frame, the splitting step
    writes one row for each code that [_str_to_list] returned, in order,
    next to the other columns of its row. *)
Theorem split_after_str_to_list (df : list (row * list str)) :
  Forall (fun r => snd r <> [] /\ exists s, _str_to_list s = Returns (snd r)) df ->
  NoDup (List.concat (map snd df)) ->
  split_cities_postal_codes (map (fun r => (fst r, list_text (snd r))) df)
  = flat_map (fun r => map (pair (fst r)) (snd r)) df.
Proof.
  intros H. apply split_distinct_codes. eapply Forall_impl; [|exact H].
  intros r [Hne [s Hs]]. split; [exact Hne|].
  rewrite StrToList.str_to_list_segments in Hs.
  exact (StrToList.loop_digits (StrToList.segments_segment s) (Forall_nil _) Hs).
Qed.

End Rows.

End SplitFacts.

(** ** City names, processed *)

Module ExtractionFacts.

Import Str StrFacts SplitFacts Extraction.
Local Open Scope nat_scope.

Lemma lstrip_suffix (chars : N -> bool) (s : str) :
  exists a, s = a ++ lstrip chars s.
Proof.
  induction s as [|c s [a IH]]; simpl; [now exists []|].
  destruct (chars c); [|now exists []]. exists (c :: a). simpl. now f_equal.
Qed.

Lemma lstrip_head (chars : N -> bool) (s : str) (c : N) (t : str) :
  lstrip chars s = c :: t -> chars c = false.
Proof.
  induction s as [|x s IH]; simpl; [discriminate|].
  destruct (chars x) eqn:E; [exact IH|]. intros H. inversion H; subst. exact E.
Qed.

Lemma rstrip_prefix (chars : N -> bool) (s : str) :
  exists b, s = rstrip chars s ++ b.
Proof.
  unfold rstrip. destruct (lstrip_suffix chars (rev s)) as [a E].
  exists (rev a). rewrite <- rev_app_distr, <- E. now rewrite rev_involutive.
Qed.

Lemma rstrip_last (chars : N -> bool) (s t : str) (c : N) :
  rstrip chars s = t ++ [c] -> chars c = false.
Proof.
  unfold rstrip. intros H. apply (f_equal (@rev N)) in H.
  rewrite rev_involutive, rev_app_distr in H. simpl in H.
  now apply lstrip_head in H.
Qed.

Lemma lstrip_snoc (chars : N -> bool) (u : str) (h : N) :
  chars h = false -> lstrip chars (u ++ [h]) = lstrip chars u ++ [h].
Proof.
  intros H. induction u as [|c u IH]; simpl; [now rewrite H|].
  destruct (chars c); [exact IH | reflexivity].
Qed.

Lemma rstrip_cons (chars : N -> bool) (h : N) (t : str) :
  chars h = false -> rstrip chars (h :: t) = h :: rstrip chars t.
Proof.
  intros H. unfold rstrip. simpl rev. rewrite lstrip_snoc by exact H.
  now rewrite rev_app_distr.
Qed.

(** What [strip] returns has no character to strip at either end. *)
Lemma strip_chars_ends (chars : N -> bool) (s : str) :
  (forall c t, strip_chars chars s = c :: t -> chars c = false) /\
  (forall t c, strip_chars chars s = t ++ [c] -> chars c = false).
Proof.
  unfold strip_chars. split.
  - intros c t. destruct (lstrip chars s) as [|h y] eqn:E; [discriminate|].
    pose proof (lstrip_head _ _ E) as Hh. rewrite rstrip_cons by exact Hh.
    intros H. inversion H; subst. exact Hh.
  - intros t c. apply rstrip_last.
Qed.

Lemma strip_chars_within (chars : N -> bool) (s : str) :
  exists a b, s = a ++ strip_chars chars s ++ b.
Proof.
  unfold strip_chars. destruct (lstrip_suffix chars s) as [a Ea].
  destruct (rstrip_prefix chars (lstrip chars s)) as [b Eb].
  exists a, b. now rewrite <- Eb.
Qed.

(** A text with nothing to strip is left as it is. *)
Lemma strip_chars_fixed (chars : N -> bool) (s : str) :
  (forall c t, s = c :: t -> chars c = false) ->
  (forall t c, s = t ++ [c] -> chars c = false) ->
  strip_chars chars s = s.
Proof.
  intros Hhead Hlast. unfold strip_chars.
  assert (lstrip chars s = s) as ->.
  { destruct s as [|c t]; [reflexivity|]. apply lstrip_stop. now apply (Hhead c t). }
  destruct s as [|c t]; [reflexivity|].
  destruct (@exists_last _ (c :: t)) as (t' & c' & E); [discriminate|].
  rewrite E. apply rstrip_stop. now apply (Hlast t' c').
Qed.

Lemma before_prefix (sep : N) (s : str) :
  ~ In sep (before sep s) /\ exists b, s = before sep s ++ b.
Proof.
  induction s as [|c s [Hn [b Hb]]]; simpl.
  - split; [tauto | now exists []].
  - destruct (N.eqb_spec c sep) as [->|Hc].
    + split; [tauto | now exists (sep :: s)].
    + split.
      * intros [H|H]; [contradiction | now apply Hn].
      * exists b. simpl. now f_equal.
Qed.

Lemma before_fixed (sep : N) (s : str) : ~ In sep s -> before sep s = s.
Proof.
  induction s as [|c s IH]; simpl; intros H; [reflexivity|].
  destruct (N.eqb_spec c sep) as [->|Hc]; [exfalso; apply H; now left|].
  f_equal. apply IH. intros Hin. apply H. now right.
Qed.

Lemma open_only_within (x r y : str) : open_only (x ++ r ++ y) -> open_only r.
Proof.
  intros H a b E Hin. subst r. apply (H (x ++ a) (b ++ y)).
  - now rewrite <- !app_assoc.
  - apply in_or_app. now left.
Qed.

Lemma open_only_cons (c : N) (s : str) : c <> lparen -> open_only s -> open_only (c :: s).
Proof.
  intros Hc H a b E. destruct a as [|x a]; simpl in E; inversion E; subst.
  - contradiction.
  - now apply (H a b).
Qed.

Lemma no_close_open_only (s : str) : ~ In rparen s -> open_only s.
Proof.
  intros H a b -> Hin. apply H, in_or_app. right. now right.
Qed.

(** After an opening parenthesis that nothing closes, the text stays. *)
Lemma remove_pending_no_close (s : str) :
  forall read, ~ In rparen s ->
  remove_parenthesised (Some read) s = lparen :: rev read ++ s.
Proof.
  induction s as [|c s IH]; intros read H; simpl.
  - now rewrite app_nil_r.
  - destruct (N.eqb_spec c rparen) as [->|Hc]; [exfalso; apply H; now left|].
    rewrite IH by (intros Hin; apply H; now right).
    simpl. now rewrite <- app_assoc.
Qed.

Lemma remove_fixed (s : str) : open_only s -> remove_parenthesised None s = s.
Proof.
  induction s as [|c s IH]; intros H; simpl; [reflexivity|].
  destruct (N.eqb_spec c lparen) as [->|Hc].
  - exact (@remove_pending_no_close s [] (H [] s eq_refl)).
  - f_equal. apply IH. intros a b E. apply (H (c :: a) b). simpl. now f_equal.
Qed.

Lemma remove_open_only (s : str) :
  forall pending,
    (forall read, pending = Some read -> ~ In rparen read) ->
    open_only (remove_parenthesised pending s).
Proof.
  induction s as [|c s IH]; intros pending Hp; simpl.
  - destruct pending as [read|].
    + apply no_close_open_only. intros [H|H]; [discriminate|].
      apply in_rev in H. now apply (Hp read).
    + intros a b E. destruct a; discriminate.
  - destruct pending as [read|].
    + destruct (N.eqb_spec c rparen) as [->|Hc].
      * apply IH. discriminate.
      * apply IH. intros read' E. inversion E; subst.
        intros [H|H]; [now apply Hc | now apply (Hp read)].
    + destruct (N.eqb_spec c lparen) as [->|Hc].
      * apply IH. intros read E. inversion E; subst. tauto.
      * apply open_only_cons; [exact Hc|]. apply IH. discriminate.
Qed.

Lemma process_string_is_plain (s : str) : plain (process_string s).
Proof.
  unfold process_string, strip.
  set (r := remove_parenthesised None s).
  destruct (before_prefix slash r) as [Hslash [b Eb]].
  destruct (strip_chars_within isspace (before slash r)) as (x & y & E).
  destruct (strip_chars_ends isspace (before slash r)) as [Hhead Hlast].
  split; [|split; [|split]].
  - intros Hin. apply Hslash. rewrite E. apply in_or_app. right.
    apply in_or_app. now left.
  - apply (@open_only_within x _ (y ++ b)).
    rewrite app_assoc, app_assoc, <- (app_assoc x), <- E, <- Eb.
    apply remove_open_only. discriminate.
  - exact Hhead.
  - exact Hlast.
Qed.

(** X18. What [process_string] returns is plain: it holds no slash and no
    closing parenthesis after an opening one, and neither starts nor ends
    with white space. *)
Theorem process_string_plain (s : str) : plain (process_string s).
Proof. apply process_string_is_plain. Qed.

Lemma process_string_fixed (s : str) : plain s -> process_string s = s.
Proof.
  intros (Hslash & Hopen & Hhead & Hlast). unfold process_string, strip.
  rewrite (@remove_fixed _ Hopen), (@before_fixed _ _ Hslash).
  now apply strip_chars_fixed.
Qed.

(** X19. The texts [process_string] leaves unchanged are exactly the plain
    ones, so processing a processed text changes nothing. *)
Theorem process_string_idempotent (s : str) :
  (process_string s = s <-> plain s) /\
  process_string (process_string s) = process_string s.
Proof.
  split.
  - split; [|apply process_string_fixed].
    intros E. rewrite <- E. apply process_string_is_plain.
  - apply process_string_fixed, process_string_is_plain.
Qed.

End ExtractionFacts.

(** ** Postal codes merged with their coordinates *)

Section MergeFacts.

Local Open Scope nat_scope.

Variable row : Type.

Lemma filter_codes (coordinates_df : list (string * option float * option float))
    (postal_codes_df : list (row * string)) (c : string) :
  map (fun t => fst (fst t)) coordinates_df = map snd postal_codes_df ->
  List.length (filter (fun t => String.eqb (fst (fst t)) c) coordinates_df) =
  List.length (filter (fun l => String.eqb (snd l) c) postal_codes_df).
Proof.
  revert postal_codes_df; induction coordinates_df as [|t ts IH];
    intros [|l ls] E; simpl in E; try discriminate; [reflexivity|].
  inversion E as [[Ec Es]]. simpl. rewrite Ec.
  destruct (String.eqb (snd l) c); simpl; now rewrite (IH ls Es).
Qed.

(** X20. The merge multiplies repeated codes.  When the frame of
    coordinates holds, row for row, the postal codes of the frame of
    postal codes, a code that is in [k] rows of the frame of postal codes is
    in [k * k] rows of the merged frame: once only when it is not
    repeated. *)
Theorem merge_left_squares_repeated_codes
    (postal_codes_df : list (row * string))
    (coordinates_df : list (string * option float * option float)) (c : string) :
  map (fun t => fst (fst t)) coordinates_df = map snd postal_codes_df ->
  let k := List.length (filter (fun l => String.eqb (snd l) c) postal_codes_df) in
  List.length
    (filter (fun m => String.eqb (snd (fst (fst m))) c)
       (merge_left postal_codes_df coordinates_df)) = k * k.
Proof.
  intros E k. pose proof (filter_codes coordinates_df postal_codes_df c E) as Hk.
  fold k in Hk. unfold merge_left.
  set (P := fun m : row * string * option float * option float =>
              String.eqb (snd (fst (fst m))) c).
  set (f := fun l : row * string =>
              match filter (fun t => String.eqb (fst (fst t)) (snd l)) coordinates_df with
              | [] => [(fst l, snd l, None, None)]
              | found => map (fun t => (fst l, snd l, snd (fst t), snd t)) found
              end).
  assert (forall l, In l postal_codes_df -> snd l = c -> 0 < k) as Hpos.
  { intros l Hin Hc.
    assert (In l (filter (fun l => String.eqb (snd l) c) postal_codes_df)) as H
      by (apply filter_In; split; [exact Hin | now apply String.eqb_eq]).
    unfold k. destruct (filter (fun l => String.eqb (snd l) c) postal_codes_df);
      [destruct H | simpl; lia]. }
  assert (forall l, In l postal_codes_df -> snd l = c ->
                    List.length (filter P (f l)) = k) as Hsame.
  { intros l Hin Hc. pose proof (Hpos l Hin Hc) as Hk0. unfold f. rewrite Hc.
    destruct (filter (fun t => String.eqb (fst (fst t)) c) coordinates_df) as [|t ts];
      [simpl in Hk; lia|].
    rewrite <- Hk.
    assert (forall found : list (string * option float * option float),
      filter P (map (fun t0 => (fst l, c, snd (fst t0), snd t0)) found) =
      map (fun t0 => (fst l, c, snd (fst t0), snd t0)) found) as Hall.
    { induction found as [|x xs IHx]; [reflexivity|].
      simpl. unfold P at 1. simpl. rewrite String.eqb_refl. now rewrite IHx. }
    now rewrite Hall, length_map. }
  assert (forall l, snd l <> c -> filter P (f l) = []) as Hother.
  { intros l Hc.
    assert (forall rows : list (row * string * option float * option float),
      Forall (fun m => snd (fst (fst m)) = snd l) rows -> filter P rows = []) as Hnone.
    { induction 1 as [|m ms Hm _ IHm]; [reflexivity|].
      simpl. unfold P at 1. rewrite Hm.
      destruct (String.eqb_spec (snd l) c); [contradiction | exact IHm]. }
    apply Hnone. unfold f.
    destruct (filter (fun t => String.eqb (fst (fst t)) (snd l)) coordinates_df).
    - repeat constructor.
    - apply Forall_forall. intros m Hm. apply in_map_iff in Hm.
      destruct Hm as [t [<- _]]. reflexivity. }
  assert (forall df, incl df postal_codes_df ->
    List.length (filter P (flat_map f df)) =
    List.length (filter (fun l => String.eqb (snd l) c) df) * k) as Hgen.
  { induction df as [|l df IH]; intros Hincl; [reflexivity|].
    simpl flat_map. rewrite filter_app, length_app.
    rewrite IH by (intros x Hx; apply Hincl; now right). simpl filter.
    destruct (String.eqb_spec (snd l) c) as [Hc|Hc].
    - rewrite (Hsame l) by (try exact Hc; apply Hincl; now left). simpl. lia.
    - rewrite (Hother l Hc). simpl. lia. }
  apply Hgen, incl_refl.
Qed.

End MergeFacts.

(** ** The further theorems at sample inputs *)

Section MoreRuns.

Local Open Scope string_scope.
Local Open Scope float_scope.
Local Open Scope list_scope.

Import Str.

Lemma far_twins_resolved :
  resolved Sample.far_twins (selects (Some "10115") None) 0
    (mkRecord "10115" "Berlin" 52.5200 13.4050).
Proof.
  split; [reflexivity|]. split; [split; reflexivity|]. split; [reflexivity|].
  intros j r Hj. inversion Hj.
Defined.

Lemma bounding_search_key_error_witness :
  exists missing,
    find_nearby_postal_codes_by_bounding Sample.cos (Some Sample.far_twins)
      (Some "10115") 50 = Raised (KeyError missing) /\ In 1%nat missing.
Proof.
  assert (exists r, nth_error Sample.far_twins 1 = Some r /\ complete r /\
                    PostalCode r = "10115" /\
                    in_box (52.5200 - 50 / 110.574,
                            13.4050 - 50 / (111.32 * Sample.cos (radians 52.5200)),
                            52.5200 + 50 / 110.574,
                            13.4050 + 50 / (111.32 * Sample.cos (radians 52.5200))) r
                      = false) as Hout.
  { exists (mkRecord "10115" "Munich" 48.1351 11.5820).
    split; [reflexivity|]. split; [split; reflexivity|]. split; reflexivity. }
  destruct (proj2 (@bounding_search_key_error Sample.cos Sample.far_twins "10115" 50 0 _ _
                     far_twins_resolved eq_refl) 1%nat Hout) as (missing & E & Hm).
  exists missing. split; [exact E|]. apply Hm. exact Hout.
Defined.

Lemma results_in_file_order_witness :
  StronglySorted lt (labels [(1%nat, "20095"); (2%nat, "80331")]) /\
  NoDup (labels [(1%nat, "20095"); (2%nat, "80331")]).
Proof.
  exact (@results_in_file_order Sample.cos Sample.geodesic_km Sample.germany
           (Some "10115") None 600 _ (or_introl eq_refl)).
Defined.

Lemma bounding_search_excludes_reference_code_witness :
  find_nearby_postal_codes_by_bounding Sample.cos (Some Sample.berlin_twins)
    (Some "10115") 50 = Found [(2%nat, "10117")] /\
  ~ In "10115" (values [(2%nat, "10117")]).
Proof.
  split; [reflexivity|].
  exact (@bounding_search_excludes_reference_code Sample.cos Sample.berlin_twins
           "10115" 50 _ eq_refl).
Defined.

Lemma str_to_list_comma_witness :
  _str_to_list (ascii_str "01067" ++ comma :: ascii_str "01069") =
  Returns [ascii_str "01067"; ascii_str "01069"].
Proof.
  rewrite StrToList.str_to_list_comma; [reflexivity|].
  intros [H|[]]. discriminate H.
Defined.

Lemma str_to_list_stops_at_empty_segment_witness :
  _str_to_list (ascii_str "123," ++ comma :: ascii_str "456") = Returns [ascii_str "123"].
Proof.
  rewrite StrToList.str_to_list_stops_at_empty_segment; [reflexivity|].
  right. left. reflexivity.
Defined.

Lemma str_to_list_returns_digits_witness :
  Forall (fun c => c <> [] /\ digits c) [ascii_str "01067"; ascii_str "01068"; ascii_str "12"].
Proof.
  exact (@StrToList.str_to_list_returns_digits
           (ascii_str "01067" ++ en_dash :: ascii_str "01068, 12") _ eq_refl).
Defined.

Lemma str_to_list_joins_across_other_characters_witness :
  _str_to_list (ascii_str "01067" ++ ascii_str "-" ++ ascii_str "01069") =
  Returns [ascii_str "01067" ++ ascii_str "01069"].
Proof.
  apply StrToList.str_to_list_joins_across_other_characters;
    try reflexivity; [discriminate | repeat constructor].
Defined.

Lemma str_to_list_range_witness :
  exists l,
    _str_to_list (ascii_str "01067" ++ ascii_str " " ++ en_dash :: ascii_str " " ++
                  ascii_str "01069") = Returns l /\
    map int l = range (int (ascii_str "01067")) (int (ascii_str "01069") + 1) /\
    Forall (fun c => (5 <= List.length c)%nat /\ digits c) l.
Proof.
  apply StrToList.str_to_list_range; try reflexivity; try discriminate;
    repeat constructor.
Defined.

Lemma sample_code_12 : code (ascii_str "12").
Proof. split; [discriminate | reflexivity]. Defined.

Lemma sample_code_34 : code (ascii_str "34").
Proof. split; [discriminate | reflexivity]. Defined.

Lemma sample_codes_distinct :
  NoDup [ascii_str "12"; ascii_str "34"; ascii_str "56"].
Proof.
  repeat constructor; simpl; intros H;
    repeat (destruct H as [H|H]; [discriminate H|]); exact H.
Defined.

Lemma split_writes_one_row_per_code_witness :
  Split.split_cities_postal_codes
    [("Aalen", Split.list_text [ascii_str "12"; ascii_str "34"]);
     ("Bonn", Split.list_text [ascii_str "56"])]
  = [("Aalen", ascii_str "12"); ("Aalen", ascii_str "34"); ("Bonn", ascii_str "56")].
Proof.
  refine (@SplitFacts.split_writes_one_row_per_code string
            [("Aalen", [ascii_str "12"; ascii_str "34"]); ("Bonn", [ascii_str "56"])]
            _ sample_codes_distinct).
  repeat constructor; try discriminate; reflexivity.
Defined.

Lemma sample_ranges_distinct :
  NoDup [ascii_str "01067"; ascii_str "01068"; ascii_str "20095"].
Proof.
  repeat constructor; simpl; intros H;
    repeat (destruct H as [H|H]; [discriminate H|]); exact H.
Defined.

Lemma split_after_str_to_list_witness :
  Split.split_cities_postal_codes
    [("Dresden", Split.list_text [ascii_str "01067"; ascii_str "01068"]);
     ("Hamburg", Split.list_text [ascii_str "20095"])]
  = [("Dresden", ascii_str "01067"); ("Dresden", ascii_str "01068");
     ("Hamburg", ascii_str "20095")].
Proof.
  refine (@SplitFacts.split_after_str_to_list string
            [("Dresden", [ascii_str "01067"; ascii_str "01068"]);
             ("Hamburg", [ascii_str "20095"])]
            _ sample_ranges_distinct).
  repeat constructor; try discriminate.
  - exists (ascii_str "01067" ++ en_dash :: ascii_str "01068"). reflexivity.
  - exists (ascii_str "20095"). reflexivity.
Defined.

Lemma split_can_keep_a_code_twice_witness :
  map snd (Split.split_cities_postal_codes
             [("Aalen", Split.list_text [ascii_str "12"]);
              ("Bonn", Split.list_text [ascii_str "34"; ascii_str "12"])])
    = [ascii_str "12"; ascii_str "34"; ascii_str "12"].
Proof.
  exact (@SplitFacts.split_can_keep_a_code_twice string "Aalen" "Bonn" _ _
           sample_code_12 sample_code_34).
Defined.

Lemma split_single_codes_unique_witness :
  NoDup (map snd (Split.split_cities_postal_codes
                    (map (fun r => (fst r, Split.list_text [snd r]))
                       [("Aalen", ascii_str "12"); ("Bonn", ascii_str "34");
                        ("Celle", ascii_str "12")]))).
Proof.
  exact (proj1 (@SplitFacts.split_single_codes_unique string
                  [("Aalen", ascii_str "12"); ("Bonn", ascii_str "34");
                   ("Celle", ascii_str "12")]
                  (Forall_cons _ sample_code_12
                     (Forall_cons _ sample_code_34
                        (Forall_cons _ sample_code_12 (Forall_nil _)))))).
Defined.

Lemma merge_left_squares_repeated_codes_witness :
  List.length
    (filter (fun m => String.eqb (snd (fst (fst m))) "10115")
       (merge_left [("Berlin", "10115"); ("Berlin Mitte", "10115"); ("Hamburg", "20095")]
          [("10115", Some 13.4050, Some 52.5200); ("10115", None, None);
           ("20095", Some 9.9937, Some 53.5511)])) = (2 * 2)%nat.
Proof.
  exact (@merge_left_squares_repeated_codes string
           [("Berlin", "10115"); ("Berlin Mitte", "10115"); ("Hamburg", "20095")]
           [("10115", Some 13.4050, Some 52.5200); ("10115", None, None);
            ("20095", Some 9.9937, Some 53.5511)] "10115" eq_refl).
Defined.

End MoreRuns.
